(** * Notebook completion provider and raw notebook provider

    A shallow embedding of

    - [JupyterCompletionProvider] ([provideCompletionItems],
      [getJupyterCompletion], [generateSortString]), and
    - [RawNotebookProviderBase] ([connect], [getConnection], [getNotebook],
      [setNotebook], [dispose]),

    together with the properties their specification states about them. *)

From Stdlib Require Import ZArith Lia Ascii String.
From stdpp Require Import base option list strings gmap.

Set Warnings "-register-all".

Local Open Scope string_scope.
Local Open Scope Z_scope.

(** ** Sort keys *)

Module SortKey.

(** [String.fromCharCode(n)] for a code unit below 256, which is all
    [generateSortString] produces for [index >= -65]. *)
Definition fromCharCode (n : Z) : string :=
  String (ascii_of_N (Z.to_N n)) EmptyString.

(** [Math.ceil(a / b)] for integers [a] and [b > 0]. *)
Definition ceil_div (a b : Z) : Z := - ((- a) / b).

(** [generateSortString(index)]; [%] is JavaScript's remainder, which takes
    the sign of the dividend. *)
Definition generateSortString (index : Z) : string :=
  if 300 <=? index then "ZZZZZZZ"
  else if index <=? 25 then "A" +:+ fromCharCode (65 + index)
  else
    let firstChar := fromCharCode (65 + ceil_div index 25) in
    let secondChar := fromCharCode (65 + Z.rem index 25) in
    firstChar +:+ secondChar.

(** JavaScript's [<] and [>=] on strings: code units, left to right. *)
Definition js_lt (a b : string) : bool := String.ltb a b.
Definition js_ge (a b : string) : bool := negb (String.ltb a b).

(** The ranks in [0, 300) whose key is not above the key of the rank before. *)
Definition out_of_order (index : Z) : bool :=
  negb (js_lt (generateSortString (index - 1)) (generateSortString index)).

Definition ranks : list Z := Z.of_nat <$> seq 0 300.

End SortKey.

(** ** Values read from the kernel's reply *)

Module Js.

(** The [metadata] of a completion reply is free-form JSON. A property
    that is absent reads as [undefined], written [None] below. *)
Inductive value : Type :=
| VNull
| VBool (b : bool)
| VNumber (n : Z)
| VString (s : string)
| VArray (items : list value)
| VObject (props : gmap string value).

(** The outcome of an expression that may raise. *)
Inductive completion (A : Type) : Type :=
| Normal (a : A)
| TypeError.
Arguments Normal {A} a.
Arguments TypeError {A}.

Definition bind {A B} (m : completion A) (k : A → completion B) : completion B :=
  match m with
  | Normal a => k a
  | TypeError => TypeError
  end.

(** [v.name] on a value that is not [undefined]: objects look the property
    up, [null] raises, and the other values (primitives and arrays) have
    none of the names read here. *)
Definition get (v : value) (name : string) : completion (option value) :=
  match v with
  | VNull => TypeError
  | VObject props => Normal (props !! name)
  | VBool _ | VNumber _ | VString _ | VArray _ => Normal None
  end.

(** [ToBoolean]. *)
Definition truthy (v : option value) : bool :=
  match v with
  | None | Some VNull => false
  | Some (VBool b) => b
  | Some (VNumber n) => negb (n =? 0)
  | Some (VString s) => negb (String.eqb s EmptyString)
  | Some (VArray _) | Some (VObject _) => true
  end.

(** [typeof v === 'number'] and [typeof v === 'string']. *)
Definition is_number (v : option value) : bool :=
  match v with Some (VNumber _) => true | _ => false end.
Definition is_string (v : option value) : bool :=
  match v with Some (VString _) => true | _ => false end.

(** [xs.every(f)]: stops at the first element on which [f] is false, and
    raises where [f] raises. *)
Fixpoint every {A} (f : A → completion bool) (xs : list A) : completion bool :=
  match xs with
  | [] => Normal true
  | x :: rest =>
      bind (f x) (λ b, if b then every f rest else Normal false)
  end.

(** [xs.map((item, index) => f(item, index))], the index counted from [i]. *)
Fixpoint map_from {A B} (i : Z) (f : A → Z → completion B) (xs : list A)
  : completion (list B) :=
  match xs with
  | [] => Normal []
  | x :: rest =>
      bind (f x i) (λ y, bind (map_from (i + 1) f rest) (λ ys, Normal (y :: ys)))
  end.

End Js.

(** ** Promises on a logical clock *)

Module Async.

Inductive settled (A : Type) : Type :=
| Fulfilled (a : A)
| Rejected.
Arguments Fulfilled {A} a.
Arguments Rejected {A}.

(** A promise is described by the instant at which it settles and how;
    [None] is a promise that never settles. Instant [0] is the call. *)
Definition promise (A : Type) : Type := option (nat * settled A).

Definition resolved {A} (a : A) : promise A := Some (0%nat, Fulfilled a).

(** [p.then(f)], where [f] may itself raise. *)
Definition and_then {A B} (p : promise A) (f : A → settled B) : promise B :=
  match p with
  | Some (t, Fulfilled a) => Some (t, f a)
  | Some (t, Rejected) => Some (t, Rejected)
  | None => None
  end.

Definition then_ {A B} (p : promise A) (f : A → B) : promise B :=
  and_then p (λ a, Fulfilled (f a)).

(** [Promise.race([p, q])]: the one that settles first; [p] on a tie. *)
Definition race {A} (p q : promise A) : promise A :=
  match p, q with
  | Some (t1, _), Some (t2, _) => if (t1 <=? t2)%nat then p else q
  | Some _, None => p
  | None, _ => q
  end.

(** Modelled from the spec: [sleep] of [common/utils/async] is not among
    the sources; it is the timer of the completion race, which expires
    after [ms]. *)
Definition sleep (ms : nat) : promise unit := Some (ms, Fulfilled tt).

(** A cancellation token: the instant at which cancellation is requested,
    if it ever is. *)
Record CancellationToken : Type := { cancelledAt : option nat }.

(** [token.isCancellationRequested], read at instant [now]. *)
Definition isCancellationRequested (token : CancellationToken) (now : nat) : bool :=
  match cancelledAt token with
  | Some c => (c <=? now)%nat
  | None => false
  end.

(** Modelled from the spec: [createPromiseFromCancellation] of
    [common/cancellation] is not among the sources. With
    [cancelAction: 'resolve'] it resolves with [defaultValue] when the token
    is cancelled and stays pending otherwise, also when no token is given. *)
Definition createPromiseFromCancellation {A} (defaultValue : A)
    (token : option CancellationToken) : promise A :=
  match token with
  | Some tok =>
      match cancelledAt tok with
      | Some c => Some (c, Fulfilled defaultValue)
      | None => None
      end
  | None => None
  end.

(** [p] has not settled by instant [c]. *)
Definition settles_after {A} (c : nat) (p : promise A) : Prop :=
  match p with
  | Some (t, _) => (c < t)%nat
  | None => True
  end.

End Async.

(** ** The completion provider *)

Module Completion.
Import Js Async SortKey.

(** The editor's [CompletionItemKind] is a numeric enumeration, in which
    [Field] is 4; the kind-mapping table is a [Map<string, number>]. *)
Definition CompletionItemKind : Type := Z.
Definition CompletionItemKind_Field : CompletionItemKind := 4.

(** [INotebookCompletion]. A cursor offset or the metadata that the
    reply does not carry reads as [undefined]. *)
Record INotebookCompletion : Type := {
  matches : list string;
  cursor_start : option Z;
  cursor_end : option Z;
  metadata : option value
}.

(** The [content] of a completion reply: either it has [matches] (and then
    is a complete reply) or it is one of the replies without it. *)
Inductive ReplyContent : Type :=
| CompleteReply (reply_matches : list string)
    (reply_cursor_start reply_cursor_end : option Z)
    (reply_metadata : option value)
| OtherReply (status : string).

Record ICompleteReplyMsg : Type := { content : option ReplyContent }.

(** [IJupyterSession], as far as the provider uses it. *)
Record IJupyterSession : Type := {
  status : string;
  requestComplete : string → Z → promise (option ICompleteReplyMsg)
}.

Record IKernel : Type := { session : option IJupyterSession }.

(** Calls made to the collaborators, in the order they are made. *)
Inductive call : Type :=
| FindAssociatedNotebookDocument (uri : string)
| KernelProviderGet
| RequestComplete (code : string) (cursor_pos : Z).

Definition emptyResult : INotebookCompletion :=
  {| matches := []; cursor_start := Some 0; cursor_end := Some 0;
     metadata := Some (VObject ∅) |}.

(** What [getJupyterCompletion] makes of the settled race. *)
Definition normalize (result : option ICompleteReplyMsg) : INotebookCompletion :=
  match result with
  | Some {| content := Some (CompleteReply ms cs ce md) |} =>
      {| matches := ms; cursor_start := cs; cursor_end := ce; metadata := md |}
  | _ => emptyResult
  end.

(** The race of the request against the cancellation. *)
Definition completionRace (session : IJupyterSession) (cellCode : string)
    (offsetInCode : Z) (cancelToken : option CancellationToken)
  : promise (option ICompleteReplyMsg) :=
  race (requestComplete session cellCode offsetInCode)
       (createPromiseFromCancellation None cancelToken).

Definition getJupyterCompletion (session : IJupyterSession) (cellCode : string)
    (offsetInCode : Z) (cancelToken : option CancellationToken)
  : list call * promise INotebookCompletion :=
  if String.eqb (status session) "busy" then
    ([], resolved {| matches := []; cursor_start := Some 0; cursor_end := Some 0;
                     metadata := Some (VObject ∅) |})
  else
    ([RequestComplete cellCode offsetInCode],
     then_ (completionRace session cellCode offsetInCode cancelToken) normalize).

Section Provider.

(** The editor's positions and ranges, and the collaborators. *)
Variables Position Range NotebookDocument : Type.
Variable newRange : Position → Position → Range.
Variable findAssociatedNotebookDocument : string → option NotebookDocument.
Variable kernelProvider_get : NotebookDocument → option IKernel.
Variable mapJupyterKind : gmap string CompletionItemKind.
(** The timeout in force: the override of the environment, else the setting. *)
Variable timeout : nat.

Record TextDocument : Type := {
  isNotebookCell : bool;
  uri : string;
  getText : string;
  offsetAt : Position → Z;
  positionAt : Z → Position
}.

Record CompletionItem : Type := {
  label : string;
  range : option Range;
  kind : option CompletionItemKind;
  sortText : string
}.

(** [result.metadata ? result.metadata._jupyter_types_experimental : []] *)
Definition experimentMatches (result : INotebookCompletion)
  : completion (option value) :=
  match metadata result with
  | Some md =>
      if truthy (Some md) then get md "_jupyter_types_experimental"
      else Normal (Some (VArray []))
  | None => Normal (Some (VArray []))
  end.

(** The callback of [every]. *)
Definition item_is_valid (item : value) : completion bool :=
  bind (get item "start") (λ start,
    if is_number start then
      bind (get item "end") (λ end_,
        if is_number end_ then
          bind (get item "text") (λ text, Normal (is_string text))
        else Normal false)
    else Normal false).

(** [mapJupyterKind.get(tag)]: the table has string keys only. *)
Definition mapJupyterKind_get (tag : option value) : option CompletionItemKind :=
  match tag with
  | Some (VString s) => mapJupyterKind !! s
  | _ => None
  end.

(** The callback of the first [map]. It runs after every element passed
    [item_is_valid], so [start], [end] and [text] have the types its last
    branch excludes. *)
Definition experimental_item (document : TextDocument) (item : value) (index : Z)
  : completion CompletionItem :=
  bind (get item "text") (λ text,
  bind (get item "start") (λ start,
  bind (get item "end") (λ end_,
  bind (get item "type") (λ type,
    match text, start, end_ with
    | Some (VString text), Some (VNumber start), Some (VNumber end_) =>
        Normal {| label := text;
                  range := Some (newRange (positionAt document start)
                                          (positionAt document end_));
                  kind := if truthy type then mapJupyterKind_get type
                          else Some CompletionItemKind_Field;
                  sortText := generateSortString index |}
    | _, _, _ => TypeError
    end)))).

(** The callback of the second [map]. *)
Definition match_item (item : string) (index : Z) : completion CompletionItem :=
  Normal {| label := item; range := None; kind := None;
            sortText := generateSortString index |}.

(** [provideCompletionItems] from the point where the race has produced a
    result. *)
Definition completionItems (document : TextDocument) (result : INotebookCompletion)
  : completion (list CompletionItem) :=
  bind (experimentMatches result) (λ experimentMatches,
    match experimentMatches with
    | Some (VArray items) =>
        if (length (matches result) <=? length items)%nat then
          bind (every item_is_valid items) (λ all_valid,
            if all_valid then map_from 0 (experimental_item document) items
            else map_from 0 match_item (matches result))
        else map_from 0 match_item (matches result)
    | _ => map_from 0 match_item (matches result)
    end).

(** The timer of the race. *)
Definition timeoutBranch (token : CancellationToken)
  : promise (option INotebookCompletion) :=
  then_ (sleep timeout)
    (λ _, if isCancellationRequested token timeout then None
          else Some emptyResult).

Definition of_completion {A} (c : completion A) : settled A :=
  match c with
  | Normal a => Fulfilled a
  | TypeError => Rejected
  end.

Definition provideCompletionItems (document : TextDocument) (position : Position)
    (token : CancellationToken) : list call * promise (list CompletionItem) :=
  if negb (isNotebookCell document) then ([], resolved [])
  else
    match findAssociatedNotebookDocument (uri document) with
    | None => ([FindAssociatedNotebookDocument (uri document)], resolved [])
    | Some notebookDocument =>
        let calls := [FindAssociatedNotebookDocument (uri document);
                      KernelProviderGet] in
        match kernelProvider_get notebookDocument with
        | None => (calls, resolved [])
        | Some kernel =>
            match session kernel with
            | None => (calls, resolved [])
            | Some kernel_session =>
                let '(rpc_calls, rpc) :=
                  getJupyterCompletion kernel_session (getText document)
                    (offsetAt document position) (Some token) in
                let result := race (then_ rpc Some) (timeoutBranch token) in
                ((calls ++ rpc_calls)%list,
                 and_then result (λ result,
                   match result with
                   | None => Fulfilled []
                   | Some result => of_completion (completionItems document result)
                   end))
            end
        end
    end.

(** *** The words of the specification

    The experimental field of the metadata, when there is one. *)
Definition experimental_field (result : INotebookCompletion) : option value :=
  match metadata result with
  | Some (VObject props) => props !! "_jupyter_types_experimental"
  | _ => None
  end.

(** An element with a numeric [start], a numeric [end] and a string [text]. *)
Definition has_start_end_text (item : value) : bool :=
  match item with
  | VObject props =>
      is_number (props !! "start") && is_number (props !! "end")
      && is_string (props !! "text")
  | _ => false
  end.

(** A valid experimental result set: present, an array, at least as long as
    [matches], every element with the three fields. *)
Definition spec_valid_experimental (result : INotebookCompletion) : bool :=
  match experimental_field result with
  | Some (VArray items) =>
      (length (matches result) <=? length items)%nat
      && forallb has_start_end_text items
  | _ => false
  end.

(** The items derived from [matches]: one per match, in order, no range and
    no kind. *)
Definition spec_match_items (ms : list string) : list CompletionItem :=
  imap (λ index item,
          {| label := item; range := None; kind := None;
             sortText := generateSortString (Z.of_nat index) |}) ms.

(** The item derived from the experimental element [item] of rank [index],
    kind apart. *)
Definition spec_experimental_item (document : TextDocument) (index : nat)
    (item : value) (produced : CompletionItem) : Prop :=
  ∃ props start end_ text,
    item = VObject props
    ∧ props !! "start" = Some (VNumber start)
    ∧ props !! "end" = Some (VNumber end_)
    ∧ props !! "text" = Some (VString text)
    ∧ label produced = text
    ∧ range produced = Some (newRange (positionAt document start)
                                       (positionAt document end_))
    ∧ sortText produced = generateSortString (Z.of_nat index).

(** The type tag of an experimental element. *)
Definition type_tag (item : value) : option value :=
  match item with
  | VObject props => props !! "type"
  | _ => None
  end.

(** No element of the experimental array is [null]. *)
Definition is_null (item : value) : bool :=
  match item with VNull => true | _ => false end.

Definition no_null_element (result : INotebookCompletion) : bool :=
  match experimental_field result with
  | Some (VArray items) => forallb (λ item, negb (is_null item)) items
  | _ => true
  end.

End Provider.

Arguments isNotebookCell {Position}.
Arguments uri {Position}.
Arguments getText {Position}.
Arguments offsetAt {Position}.
Arguments positionAt {Position}.
Arguments label {Range}.
Arguments range {Range}.
Arguments kind {Range}.
Arguments sortText {Range}.

End Completion.

(** ** The reply of the kernel, as any JSON *)

Module Wire.
Import Js Async.

(** The message that answers [requestComplete], as it comes from the
    kernel: its [content], when it has one, is any JSON value. *)
Record ICompleteReplyMsg : Type := { content : option value }.

Record IJupyterSession : Type := {
  status : string;
  requestComplete : string → Z → promise (option ICompleteReplyMsg)
}.

(** What [getJupyterCompletion] returns, with the values that the reply
    carries, whatever their types; [None] is [undefined]. *)
Record INotebookCompletion : Type := {
  matches : option value;
  cursor_start : option value;
  cursor_end : option value;
  metadata : option value
}.

Definition emptyResult : INotebookCompletion :=
  {| matches := Some (VArray []); cursor_start := Some (VNumber 0);
     cursor_end := Some (VNumber 0); metadata := Some (VObject ∅) |}.

(** ['matches' in v], for a [v] that is not [undefined]: an object has the
    property or not, an array has its indices and [length] only, and on any
    other value [in] raises. *)
Definition matches_in (v : value) : completion bool :=
  match v with
  | VObject props =>
      Normal (match props !! "matches" with Some _ => true | None => false end)
  | VArray _ => Normal false
  | VNull | VBool _ | VNumber _ | VString _ => TypeError
  end.

(** [getJupyterCompletion] from the point where the race has settled. *)
Definition normalize (result : option ICompleteReplyMsg)
  : completion INotebookCompletion :=
  match result with
  | Some {| content := Some reply_content |} =>
      if truthy (Some reply_content) then
        bind (matches_in reply_content) (λ present,
          if present then
            bind (get reply_content "matches") (λ ms,
            bind (get reply_content "cursor_start") (λ cs,
            bind (get reply_content "cursor_end") (λ ce,
            bind (get reply_content "metadata") (λ md,
              Normal {| matches := ms; cursor_start := cs; cursor_end := ce;
                        metadata := md |}))))
          else Normal emptyResult)
      else Normal emptyResult
  | _ => Normal emptyResult
  end.

Definition getJupyterCompletion (session : IJupyterSession) (cellCode : string)
    (offsetInCode : Z) (cancelToken : option CancellationToken)
  : list Completion.call * promise INotebookCompletion :=
  if String.eqb (status session) "busy" then
    ([], resolved {| matches := Some (VArray []); cursor_start := Some (VNumber 0);
                     cursor_end := Some (VNumber 0);
                     metadata := Some (VObject ∅) |})
  else
    ([Completion.RequestComplete cellCode offsetInCode],
     and_then (race (requestComplete session cellCode offsetInCode)
                    (createPromiseFromCancellation None cancelToken))
       (λ result, Completion.of_completion (normalize result))).

(** *** Replies of the declared type

    A reply of the declared type, as the JSON it is. *)
Definition optional (name : string) (v : option value) (props : gmap string value)
  : gmap string value :=
  match v with
  | Some v => <[name := v]> props
  | None => props
  end.

Definition wire_content (reply_content : Completion.ReplyContent) : value :=
  match reply_content with
  | Completion.CompleteReply ms cs ce md =>
      VObject (optional "metadata" md
                 (optional "cursor_end" (VNumber <$> ce)
                    (optional "cursor_start" (VNumber <$> cs)
                       {[ "matches" := VArray (VString <$> ms) ]})))
  | Completion.OtherReply state => VObject {[ "status" := VString state ]}
  end.

Definition wire_reply (msg : Completion.ICompleteReplyMsg) : ICompleteReplyMsg :=
  {| content := wire_content <$> Completion.content msg |}.

Definition wire_result (result : Completion.INotebookCompletion)
  : INotebookCompletion :=
  {| matches := Some (VArray (VString <$> Completion.matches result));
     cursor_start := VNumber <$> Completion.cursor_start result;
     cursor_end := VNumber <$> Completion.cursor_end result;
     metadata := Completion.metadata result |}.

Definition wire_session (session : Completion.IJupyterSession) : IJupyterSession :=
  {| status := Completion.status session;
     requestComplete := λ code cursor_pos,
       then_ (Completion.requestComplete session code cursor_pos)
             (fmap wire_reply) |}.

(** *** The words of the specification

    The content of the reply is a truthy value that is not an object. *)
Definition primitive_content (result : option ICompleteReplyMsg) : bool :=
  match result with
  | Some {| content := Some (VBool _ as v) |}
  | Some {| content := Some (VNumber _ as v) |}
  | Some {| content := Some (VString _ as v) |} => truthy (Some v)
  | _ => false
  end.

(** The content of the reply is an object that has [matches]. *)
Definition content_has_matches (result : option ICompleteReplyMsg) : bool :=
  match result with
  | Some {| content := Some (VObject props) |} =>
      match props !! "matches" with Some _ => true | None => false end
  | _ => false
  end.

(** *** Sample sessions *)

(** A session that is not busy and answers at instant [at_] with [reply]. *)
Definition answering (at_ : nat) (reply : option ICompleteReplyMsg) : IJupyterSession :=
  {| status := "idle"; requestComplete := λ _ _, Some (at_, Fulfilled reply) |}.

Definition oops_reply : ICompleteReplyMsg := {| content := Some (VString "oops") |}.

Definition null_matches_reply : ICompleteReplyMsg :=
  {| content := Some (VObject {[ "matches" := VNull ]}) |}.

Definition os_environ_reply : ICompleteReplyMsg :=
  {| content := Some (VObject {[ "matches" := VArray [VString "os.environ"];
                                 "cursor_start" := VNumber 0;
                                 "cursor_end" := VNumber 6;
                                 "metadata" := VObject ∅;
                                 "status" := VString "ok" ]}) |}.

Definition error_reply : ICompleteReplyMsg :=
  {| content := Some (VObject {[ "status" := VString "error" ]}) |}.

End Wire.

(** ** The raw notebook provider *)

Module Registry.
Import Async.

(** A [Promise<INotebook>] and a session are objects compared by identity;
    each is named by a number. *)
Definition PromiseRef : Type := nat.
Definition SessionRef : Type := nat.

Record INotebook : Type := { session : SessionRef }.

(** A [RawConnection]; its fields are constants, so an instance is told
    from another by the order of construction only. *)
Record RawConnection : Type := { instance : nat }.

(** The provider ([notebooks], [rawConnection]) and what its methods reach:
    - [order]: the keys of [notebooks] in the order in which they were
      inserted, which is the order in which a [Map] is iterated;
    - [constructed]: how many times [new RawConnection()] ran;
    - [promises]: the promises that have settled, and how;
    - [reactions]: the [then]/[catch] pair that [setNotebook] attached to a
      pending promise, with the document key its closures captured;
    - [listeners]: the [onDidDispose] listeners of each session, with the
      key and promise their closure captured;
    - [disposed]: the sessions whose [dispose()] was called, oldest first. *)
Record world : Type := {
  notebooks : gmap string PromiseRef;
  order : list string;
  rawConnection : option RawConnection;
  constructed : nat;
  promises : gmap PromiseRef (settled INotebook);
  reactions : list (PromiseRef * string);
  listeners : list (SessionRef * (string * PromiseRef));
  disposed : list SessionRef
}.

Definition initial : world :=
  {| notebooks := ∅; order := []; rawConnection := None; constructed := 0;
     promises := ∅; reactions := []; listeners := []; disposed := [] |}.

Definition set_notebooks (f : gmap string PromiseRef → gmap string PromiseRef)
    (w : world) : world :=
  {| notebooks := f (notebooks w); order := order w;
     rawConnection := rawConnection w;
     constructed := constructed w; promises := promises w;
     reactions := reactions w; listeners := listeners w;
     disposed := disposed w |}.

Definition set_order (f : list string → list string) (w : world) : world :=
  {| notebooks := notebooks w; order := f (order w);
     rawConnection := rawConnection w;
     constructed := constructed w; promises := promises w;
     reactions := reactions w; listeners := listeners w;
     disposed := disposed w |}.

(** [this.notebooks.set(key, notebook)]: a key that the map has keeps its
    place in the order of iteration, a new one goes last. *)
Definition map_set (key : string) (notebook : PromiseRef) (w : world) : world :=
  set_order (λ keys, if decide (is_Some (notebooks w !! key)) then keys
                     else (keys ++ [key])%list)
    (set_notebooks <[key := notebook]> w).

(** [this.notebooks.delete(key)] *)
Definition map_delete (key : string) (w : world) : world :=
  set_order (filter (λ k, k ≠ key)) (set_notebooks (delete key) w).

(** [this.rawConnection = new RawConnection()] *)
Definition new_RawConnection (w : world) : world :=
  {| notebooks := notebooks w; order := order w;
     rawConnection := Some {| instance := constructed w |};
     constructed := S (constructed w); promises := promises w;
     reactions := reactions w; listeners := listeners w;
     disposed := disposed w |}.

Definition connect (getOnly : bool) (w : world) : option RawConnection * world :=
  if getOnly then (rawConnection w, w)
  else
    let w' := match rawConnection w with
              | None => new_RawConnection w
              | Some _ => w
              end in
    (rawConnection w', w').

Definition getConnection (w : world) : RawConnection * world :=
  match rawConnection w with
  | Some c => (c, w)
  | None => ({| instance := constructed w |}, new_RawConnection w)
  end.

Definition getNotebook (key : string) (w : world) : option PromiseRef :=
  notebooks w !! key.

(** The closure [removeNotebook] of [setNotebook (key, notebook)]. *)
Definition removeNotebook (key : string) (notebook : PromiseRef) (w : world) : world :=
  if decide (notebooks w !! key = Some notebook)
  then map_delete key w
  else w.

(** The listener that [setNotebook (key, notebook)] gives to [onDidDispose]. *)
Definition onDidDispose_listener (key : string) (notebook : PromiseRef) (w : world)
  : world :=
  if decide (notebooks w !! key = Some notebook)
  then map_delete key w
  else w.

(** [nb.session.onDidDispose(listener, ...)] *)
Definition onDidDispose (s : SessionRef) (key : string) (notebook : PromiseRef)
    (w : world) : world :=
  {| notebooks := notebooks w; order := order w;
     rawConnection := rawConnection w;
     constructed := constructed w; promises := promises w;
     reactions := reactions w;
     listeners := listeners w ++ [(s, (key, notebook))];
     disposed := disposed w |}.

(** [notebook.then(nb => ...).catch(removeNotebook)], run on the outcome of
    [notebook]. *)
Definition react (key : string) (notebook : PromiseRef) (outcome : settled INotebook)
    (w : world) : world :=
  match outcome with
  | Fulfilled nb => onDidDispose (session nb) key notebook w
  | Rejected => removeNotebook key notebook w
  end.

Definition attach (key : string) (notebook : PromiseRef) (w : world) : world :=
  {| notebooks := notebooks w; order := order w;
     rawConnection := rawConnection w;
     constructed := constructed w; promises := promises w;
     reactions := reactions w ++ [(notebook, key)];
     listeners := listeners w; disposed := disposed w |}.

(** [setNotebook]: the reactions are attached, the entry is saved; on a
    promise that has settled already the reaction runs as soon as
    [setNotebook] has returned. The code queues that reaction as a
    microtask; the state in between, in which the entry is saved and the
    reaction has not run, is not one of this model: the call is taken
    together with the microtasks it queues. *)
Definition setNotebook (key : string) (notebook : PromiseRef) (w : world) : world :=
  match promises w !! notebook with
  | None => map_set key notebook (attach key notebook w)
  | Some outcome => react key notebook outcome (map_set key notebook w)
  end.

(** A pending promise settles: its reactions run, oldest first. The code
    queues them as microtasks (the [catch] two turns after the rejection);
    the settlement is taken together with them, so that a state in which the
    promise has settled and a reaction has not yet run is not one of this
    model. *)
Definition settle (p : PromiseRef) (outcome : settled INotebook) (w : world) : world :=
  match promises w !! p with
  | Some _ => w
  | None =>
      let mine := filter (λ r, r.1 = p) (reactions w) in
      let w' :=
        {| notebooks := notebooks w; order := order w;
     rawConnection := rawConnection w;
           constructed := constructed w;
           promises := <[p := outcome]> (promises w);
           reactions := filter (λ r, r.1 ≠ p) (reactions w);
           listeners := listeners w; disposed := disposed w |} in
      foldl (λ w r, react r.2 p outcome w) w' mine
  end.

(** A session signals its disposal: its listeners run, oldest first. *)
Definition sessionDisposed (s : SessionRef) (w : world) : world :=
  foldl (λ w l, onDidDispose_listener l.2.1 l.2.2 w) w
        (filter (λ l, l.1 = s) (listeners w)).

(** How far [dispose] got. *)
Inductive disposal : Type :=
| Waiting    (** the first [Promise.all] has not settled *)
| Aborted    (** the first [Promise.all] rejected, and so did [dispose] *)
| Requested. (** every [session.dispose()] was called *)

(** [[...this.notebooks.values()]], in the order of insertion of the keys. *)
Definition getNotebooks (w : world) : list PromiseRef :=
  omap (λ key, notebooks w !! key) (order w).

Definition rejected (w : world) (p : PromiseRef) : bool :=
  match promises w !! p with
  | Some Rejected => true
  | _ => false
  end.

(** [Promise.all] over promises, looked at in world [w]. *)
Definition all_settled (ps : list PromiseRef) (w : world)
  : option (settled (list INotebook)) :=
  if existsb (rejected w) ps then Some Rejected
  else
    match mapM (λ p, match promises w !! p with
                     | Some (Fulfilled nb) => Some nb
                     | _ => None
                     end) ps with
    | Some nbs => Some (Fulfilled nbs)
    | None => None
    end.

(** [session.dispose()] is called. *)
Definition session_dispose_called (s : SessionRef) (w : world) : world :=
  {| notebooks := notebooks w; order := order w;
     rawConnection := rawConnection w;
     constructed := constructed w; promises := promises w;
     reactions := reactions w; listeners := listeners w;
     disposed := disposed w ++ [s] |}.

(** Modelled from the spec: the sessions ([IJupyterSession]) are not among
    the sources. A session that is disposed of signals its disposal, so
    [n.session.dispose()] runs the [onDidDispose] listeners of the session. *)
Definition session_dispose (nb : INotebook) (w : world) : world :=
  sessionDisposed (session nb) (session_dispose_called (session nb) w).

(** [notebooks.map((n) => n?.session.dispose())]; [n] is never
    [undefined] for a [Promise<INotebook>]. *)
Definition dispose_sessions (nbs : list INotebook) (w : world) : world :=
  foldl (λ w nb, session_dispose nb w) w nbs.

(** [dispose], resumed in world [w] after it took [ps] from the map when it
    was called. *)
Definition dispose_resume (ps : list PromiseRef) (w : world) : disposal * world :=
  match all_settled ps w with
  | None => (Waiting, w)
  | Some Rejected => (Aborted, w)
  | Some (Fulfilled nbs) => (Requested, dispose_sessions nbs w)
  end.

(** [dispose] when nothing else happens while it waits. *)
Definition dispose (w : world) : disposal * world :=
  dispose_resume (getNotebooks w) w.

(** What can happen to a provider. *)
Inductive event : Type :=
| Connect (getOnly : bool)
| GetConnection
| GetNotebook (key : string)
| SetNotebook (key : string) (notebook : PromiseRef)
| Settle (p : PromiseRef) (outcome : settled INotebook)
| SessionDisposed (s : SessionRef)
| Dispose
| DisposeResume (ps : list PromiseRef).

Definition step (w : world) (e : event) : world :=
  match e with
  | Connect getOnly => (connect getOnly w).2
  | GetConnection => (getConnection w).2
  | GetNotebook _ => w
  | SetNotebook key notebook => setNotebook key notebook w
  | Settle p outcome => settle p outcome w
  | SessionDisposed s => sessionDisposed s w
  | Dispose => (dispose w).2
  | DisposeResume ps => (dispose_resume ps w).2
  end.

Definition run (es : list event) (w : world) : world := foldl step w es.

(** The connection of a provider and the number of constructions. *)
Definition connection_state (w : world) : option RawConnection * nat :=
  (rawConnection w, constructed w).

(** Either no connection was constructed and none is held, or one was and
    it is the one held. *)
Definition singleton_connection (w : world) : Prop :=
  connection_state w = (None, 0%nat)
  ∨ connection_state w = (Some {| instance := 0 |}, 1%nat).

End Registry.

(** ** Sample inputs *)

Module Samples.
Import Js Async SortKey Completion.

(** Offsets stand for positions, and a pair of them for a range. *)
Definition offsets_document (cell : bool) (text : string) : TextDocument Z :=
  {| isNotebookCell := cell; uri := "cell:1"; getText := text;
     offsetAt := λ position, position; positionAt := λ offset, offset |}.

Definition sample_kinds : gmap string CompletionItemKind :=
  {[ "function" := 2; "class" := 6; "module" := 8 ]}.

Definition experimental_record (start end_ : Z) (text tag : string) : value :=
  VObject {[ "start" := VNumber start; "end" := VNumber end_;
             "text" := VString text; "type" := VString tag ]}.

Definition with_experimental (ms : list string) (items : list value)
  : INotebookCompletion :=
  {| matches := ms; cursor_start := Some 0; cursor_end := Some 0;
     metadata := Some (VObject {[ "_jupyter_types_experimental" := VArray items ]}) |}.

(** Two matches and two well-formed experimental records. *)
Definition two_records : INotebookCompletion :=
  with_experimental ["a"; "b"]
    [experimental_record 2 4 "abcd" "function";
     experimental_record 2 4 "abce" "instance"].

(** One of the records has no [text]. *)
Definition one_without_text : INotebookCompletion :=
  with_experimental ["a"; "b"]
    [experimental_record 2 4 "abcd" "function";
     VObject {[ "start" := VNumber 2; "end" := VNumber 4 ]}].

(** One of the elements is [null]. *)
Definition one_null : INotebookCompletion :=
  with_experimental ["a"] [VNull].

(** A session whose request is answered at instant [at_] with [reply], or
    never when [at_] is [None]. *)
Definition sample_session (state : string) (at_ : option nat)
    (reply : option ICompleteReplyMsg) : IJupyterSession :=
  {| status := state;
     requestComplete := λ _ _,
       match at_ with
       | Some t => Some (t, Fulfilled reply)
       | None => None
       end |}.

Definition os_environ_reply : ICompleteReplyMsg :=
  {| content := Some (CompleteReply ["os.environ"] (Some 0) (Some 0)
                        (Some (VObject ∅))) |}.

(** One notebook, with a kernel that has the session [s]. *)
Definition one_notebook (name : string) : option nat :=
  if String.eqb name "cell:1" then Some 0%nat else None.

Definition kernel_of (s : IJupyterSession) (notebook : nat) : option IKernel :=
  Some {| session := Some s |}.

(** Two documents are registered and the session of the first is created;
    the creation of the second is still in flight. *)
Definition one_in_flight : Registry.world :=
  Registry.run [Registry.SetNotebook "docA" 1%nat; Registry.SetNotebook "docB" 2%nat;
                Registry.Settle 1%nat (Fulfilled {| Registry.session := 7%nat |})]
    Registry.initial.

(** [docA] is registered with promise 1 and then again with promise 2. *)
Definition superseded : Registry.world :=
  Registry.setNotebook "docA" 2%nat
    (Registry.setNotebook "docA" 1%nat Registry.initial).

End Samples.

(** ** The order of the sort keys, pair by pair *)

Module SortKeyOrder.
Import SortKey.

(** The pairs of ranks [i < j] whose keys come out in the wrong order: [j] is
    a multiple of 25 from 50 on, and [i] one of the 24 ranks before it. *)
Definition inverted (i j : Z) : bool :=
  (50 <=? j) && (j mod 25 =? 0) && (j - 25 <? i).

(** A test on every pair [i < j] of ranks below 300. *)
Definition forall_pairs (f : Z → Z → bool) : bool :=
  forallb (λ i, forallb (λ j, if i <? j then f i j else true) ranks) ranks.

(** A capital letter of the 26-letter alphabet. *)
Definition is_capital (c : ascii) : bool :=
  (65 <=? Z.of_N (N_of_ascii c)) && (Z.of_N (N_of_ascii c) <=? 90).

Fixpoint capitals (s : string) : bool :=
  match s with
  | EmptyString => true
  | String c rest => is_capital c && capitals rest
  end.

End SortKeyOrder.

(** ** What the map of a provider tracks *)

Module Tracking.
Import Async Registry.

(** Every promise in the map is pending, with the reaction that [setNotebook]
    attached for its key still waiting, or it is fulfilled, with the listener
    for its key on the session of its notebook; none is rejected. *)
Definition tracked (w : world) : Prop :=
  ∀ key p, notebooks w !! key = Some p →
    match promises w !! p with
    | None => (p, key) ∈ reactions w
    | Some (Fulfilled nb) => (session nb, (key, p)) ∈ listeners w
    | Some Rejected => False
    end.

(** A listener is on the session of the notebook its promise was fulfilled
    with. *)
Definition listening (w : world) : Prop :=
  ∀ s key p, (s, (key, p)) ∈ listeners w →
    promises w !! p = Some (Fulfilled {| session := s |}).

End Tracking.

(** ** More sample inputs *)

Module MoreSamples.
Import Js Async SortKey Completion Samples.

(** A session whose request is rejected at instant [at_]. *)
Definition failing_session (at_ : nat) : IJupyterSession :=
  {| status := "idle"; requestComplete := λ _ _, Some (at_, Rejected) |}.

(** A notebook cell that belongs to no notebook. *)
Definition stray_document : TextDocument Z :=
  {| isNotebookCell := true; uri := "cell:2"; getText := "os.env";
     offsetAt := λ position, position; positionAt := λ offset, offset |}.

(** A kernel provider that has no kernel, and one whose kernel has no session. *)
Definition no_kernel (notebook : nat) : option IKernel := None.
Definition no_session (notebook : nat) : option IKernel :=
  Some {| session := None |}.

(** The events of [one_in_flight], and those of a provider with one notebook
    that has been created. *)
Definition in_flight_events : list Registry.event :=
  [Registry.SetNotebook "docA" 1%nat; Registry.SetNotebook "docB" 2%nat;
   Registry.Settle 1%nat (Fulfilled {| Registry.session := 7%nat |})].

Definition created_events : list Registry.event :=
  [Registry.SetNotebook "docA" 1%nat;
   Registry.Settle 1%nat (Fulfilled {| Registry.session := 7%nat |})].

End MoreSamples.

(** * Properties *)

(** ** Sort keys *)

Section SortKeyFacts.
Import SortKey.

Lemma ranks_spec (index : Z) : 0 <= index < 300 → index ∈ ranks.
Proof.
  intros Hrange. unfold ranks.
  apply list_elem_of_fmap. exists (Z.to_nat index). split; [lia |].
  apply elem_of_seq. lia.
Qed.

(** The keys of ranks 0 to 25 are ["AA"] to ["AZ"]. *)
Lemma generateSortString_low (index : Z) :
  0 <= index <= 25 →
  generateSortString index = "A" +:+ fromCharCode (65 + index).
Proof.
  intros Hrange. unfold generateSortString.
  destruct (300 <=? index) eqn:Hbig; [lia |].
  destruct (index <=? 25) eqn:Hlow; [reflexivity | lia].
Qed.

(** From rank 300 on the key is the fixed last one. *)
Lemma generateSortString_high (index : Z) :
  300 <= index → generateSortString index = "ZZZZZZZ".
Proof.
  intros Hrange. unfold generateSortString.
  destruct (300 <=? index) eqn:Hbig; [reflexivity | lia].
Qed.

(** The ranks of [0, 300) at which the order of the keys breaks are the
    multiples of 25 from 50 on. *)
Lemma out_of_order_ranks :
  filter (λ index, out_of_order index = true) ranks
  = [50; 75; 100; 125; 150; 175; 200; 225; 250; 275].
Proof. vm_compute. reflexivity. Qed.

Lemma out_of_order_iff (index : Z) :
  0 <= index < 300 →
  out_of_order index = true ↔ 50 <= index ∧ (25 | index).
Proof.
  intros Hrange. pose proof (ranks_spec index Hrange) as Hin. split.
  - intros Hout.
    assert (index ∈ filter (λ index, out_of_order index = true) ranks) as Hf
      by (apply list_elem_of_filter; done).
    rewrite out_of_order_ranks in Hf.
    repeat (apply elem_of_cons in Hf as [-> | Hf];
            [split; [lia | by apply Z.mod_divide] |]).
    by apply elem_of_nil in Hf.
  - intros [Hge [k ->]].
    assert (k = 2 ∨ k = 3 ∨ k = 4 ∨ k = 5 ∨ k = 6 ∨ k = 7 ∨ k = 8 ∨ k = 9
            ∨ k = 10 ∨ k = 11) as Hk by lia.
    repeat (destruct Hk as [-> | Hk]; [by vm_compute |]).
    subst k. by vm_compute.
Qed.

(** C1, at the input where the code departs from it: rank 49 gets ["CY"]
    and rank 50 gets ["CA"], so the key of rank 50 is below the key of the
    rank before it, whereas the keys are meant to grow with the rank. *)
Theorem generateSortString_order_breaks_at_50 :
  generateSortString 49 = "CY"
  ∧ generateSortString 50 = "CA"
  ∧ js_lt (generateSortString (50 - 1)) (generateSortString 50) = false
  ∧ js_lt (generateSortString 50) (generateSortString (50 - 1)) = true.
Proof. vm_compute. repeat split. Qed.

(** What does hold of the keys: below rank 300 they grow with the rank
    except at the ranks of [out_of_order_iff], and the key of rank 300 is
    not below the key of rank 299. *)
Lemma generateSortString_increasing_elsewhere (index : Z) :
  0 <= index < 300 →
  ¬ (50 <= index ∧ (25 | index)) →
  js_lt (generateSortString (index - 1)) (generateSortString index) = true.
Proof.
  intros Hrange Hnot.
  destruct (js_lt _ _) eqn:Hlt; [reflexivity |].
  exfalso. apply Hnot. apply out_of_order_iff; [done |].
  unfold out_of_order. by rewrite Hlt.
Qed.

Lemma generateSortString_300_last :
  js_ge (generateSortString 300) (generateSortString 299) = true.
Proof. reflexivity. Qed.

End SortKeyFacts.

(** ** Normalisation of the two schemas *)

Section NormalisationFacts.
Import Js Async SortKey Completion.

Context {Position Range : Type}.
Variable newRange : Position → Position → Range.
Variable mapJupyterKind : gmap string CompletionItemKind.

Local Abbreviation completionItems := (completionItems Position Range newRange mapJupyterKind).
Local Abbreviation experimental_item := (experimental_item Position Range newRange mapJupyterKind).
Local Abbreviation spec_experimental_item := (spec_experimental_item Position Range newRange).
Local Abbreviation mapJupyterKind_get := (mapJupyterKind_get mapJupyterKind).
Local Abbreviation spec_match_items := (spec_match_items Range).
Local Abbreviation match_item := (match_item Range).

(** On an element that is not [null] the callback of [every] does not raise
    and tests for the three fields. *)
Lemma item_is_valid_spec (item : value) :
  item ≠ VNull → item_is_valid item = Normal (has_start_end_text item).
Proof.
  intros Hnull. destruct item as [| b | n | s | items | props]; try done.
  unfold item_is_valid, has_start_end_text. simpl.
  destruct (is_number (props !! "start")); [| done]. simpl.
  destruct (is_number (props !! "end")); done.
Qed.

Lemma every_item_is_valid (items : list value) :
  forallb (λ item, negb (is_null item)) items = true →
  every item_is_valid items = Normal (forallb has_start_end_text items).
Proof.
  induction items as [| item items IH]; intros Hnull; [done |].
  simpl in Hnull. apply andb_true_iff in Hnull as [Hitem Hitems]. simpl.
  rewrite item_is_valid_spec by (by intros ->). simpl.
  destruct (has_start_end_text item); [by apply IH | done].
Qed.

(** An element with the three fields is not [null]. *)
Lemma has_start_end_text_not_null (items : list value) :
  forallb has_start_end_text items = true →
  forallb (λ item, negb (is_null item)) items = true.
Proof.
  induction items as [| item items IH]; [done |]. simpl.
  intros [Hitem Hitems]%andb_true_iff. rewrite IH by done.
  by destruct item.
Qed.

Lemma spec_valid_no_null (result : INotebookCompletion) :
  spec_valid_experimental result = true → no_null_element result = true.
Proof.
  unfold spec_valid_experimental, no_null_element.
  destruct (experimental_field result) as [[| b | n | s | items | props] |]; try done.
  intros [_ Hvalid]%andb_true_iff. by apply has_start_end_text_not_null.
Qed.

(** A [null] that comes before any element without the three fields makes
    [every] raise. *)
Lemma every_item_is_valid_null (before after : list value) :
  forallb has_start_end_text before = true →
  every item_is_valid (before ++ VNull :: after) = TypeError.
Proof.
  induction before as [| item before IH]; intros Hvalid; [done |].
  simpl in Hvalid. apply andb_true_iff in Hvalid as [Hitem Hbefore]. simpl.
  rewrite item_is_valid_spec by (by intros ->). rewrite Hitem. simpl.
  by apply IH.
Qed.

(** The second [map] gives the items derived from [matches]. *)
Lemma map_from_match_item (ms : list string) (i : nat) :
  map_from (Z.of_nat i) match_item ms
  = Normal (imap (λ index item,
                    {| label := item; range := None; kind := None;
                       sortText := generateSortString (Z.of_nat (i + index)) |}) ms).
Proof.
  revert i. induction ms as [| m ms IH]; intros i; [done |]. simpl.
  replace (Z.of_nat i + 1) with (Z.of_nat (S i)) by lia.
  rewrite IH. simpl. rewrite Nat.add_0_r. do 2 f_equal.
  apply imap_ext. intros j x _. simpl. do 2 f_equal. lia.
Qed.

Lemma map_from_match_item_0 (ms : list string) :
  map_from 0 match_item ms = Normal (spec_match_items ms).
Proof. exact (map_from_match_item ms 0). Qed.

(** The first [map], on elements that all have the three fields: it does not
    raise, and gives one item per element, in order. *)
Lemma map_from_experimental_item (document : TextDocument Position)
    (items : list value) (i : nat) :
  forallb has_start_end_text items = true →
  ∃ produced,
    map_from (Z.of_nat i) (experimental_item document) items = Normal produced
    ∧ length produced = length items
    ∧ ∀ j item, items !! j = Some item →
        ∃ it, produced !! j = Some it
              ∧ spec_experimental_item document (i + j) item it
              ∧ kind it = if truthy (type_tag item)
                          then mapJupyterKind_get (type_tag item)
                          else Some CompletionItemKind_Field.
Proof.
  revert i. induction items as [| item items IH]; intros i Hvalid.
  - exists []. repeat split. intros j item Hj. by rewrite lookup_nil in Hj.
  - simpl in Hvalid. apply andb_true_iff in Hvalid as [Hitem Hitems].
    destruct (IH (S i) Hitems) as (rest & Hrest & Hlen & Hnth).
    destruct item as [| b | n | s | arr | props]; try done.
    simpl in Hitem.
    destruct (props !! "start") as [[| | start | | |] |] eqn:Hstart; try done.
    destruct (props !! "end") as [[| | end_ | | |] |] eqn:Hend; try done.
    destruct (props !! "text") as [[| | | text | |] |] eqn:Htext; try done.
    eexists. split; [| split].
    + simpl. unfold experimental_item at 1. simpl.
      rewrite Hstart, Hend, Htext. simpl.
      replace (Z.of_nat i + 1) with (Z.of_nat (S i)) by lia.
      rewrite Hrest. simpl. reflexivity.
    + simpl. by rewrite Hlen.
    + intros [| j] elem Hj; simpl in Hj.
      * injection Hj as <-. eexists. split; [reflexivity |]. split.
        -- exists props, start, end_, text. rewrite Nat.add_0_r. done.
        -- done.
      * destruct (Hnth j elem Hj) as (it & Hit & Hspec & Hkind).
        exists it. split; [done |]. split; [| done].
        by replace (i + S j)%nat with (S i + j)%nat by lia.
Qed.

(** [experimentMatches] never raises: the metadata it reads a property of
    is truthy, hence not [null]. It is the experimental field when the
    metadata is an object, nothing when the metadata is another truthy
    value, and the empty array when the metadata is falsy. *)
Lemma experimentMatches_spec (result : INotebookCompletion) :
  experimentMatches result
  = Normal (if truthy (metadata result)
            then experimental_field result
            else Some (VArray [])).
Proof.
  unfold experimentMatches, experimental_field.
  destruct (metadata result) as [[| b | n | s | items | props] |]; simpl; try done.
  - by destruct b.
  - by destruct (negb (n =? 0)).
  - by destruct (negb (String.eqb s EmptyString)).
Qed.

(** When the metadata is falsy the experimental field is absent. *)
Lemma experimental_field_falsy (result : INotebookCompletion) :
  truthy (metadata result) = false → experimental_field result = None.
Proof.
  unfold experimental_field.
  by destruct (metadata result) as [[| b | n | s | items | props] |].
Qed.

(** The two schemas, never mixed: with no [null] among the elements, a valid
    experimental field gives the experimental items and anything else gives
    the items of [matches]. *)
Lemma completionItems_spec (document : TextDocument Position)
    (result : INotebookCompletion) :
  no_null_element result = true →
  if spec_valid_experimental result then
    ∃ items produced,
      experimental_field result = Some (VArray items)
      ∧ completionItems document result = Normal produced
      ∧ length produced = length items
      ∧ ∀ j item, items !! j = Some item →
          ∃ it, produced !! j = Some it
                ∧ spec_experimental_item document j item it
                ∧ kind it = if truthy (type_tag item)
                            then mapJupyterKind_get (type_tag item)
                            else Some CompletionItemKind_Field
  else completionItems document result = Normal (spec_match_items (matches result)).
Proof.
  intros Hnull. unfold Completion.completionItems.
  rewrite experimentMatches_spec. simpl.
  unfold spec_valid_experimental, no_null_element in *.
  destruct (truthy (metadata result)) eqn:Htruthy.
  - destruct (experimental_field result) as [[| b | n | s | items | props] |];
      try apply map_from_match_item_0.
    destruct (length (matches result) <=? length items)%nat; simpl;
      [| apply map_from_match_item_0].
    rewrite every_item_is_valid by done. simpl.
    destruct (forallb has_start_end_text items) eqn:Hvalid;
      [| apply map_from_match_item_0].
    destruct (map_from_experimental_item document items 0 Hvalid)
      as (produced & Hmap & Hlen & Hnth).
    exists items, produced. repeat split; done.
  - rewrite experimental_field_falsy by done. simpl.
    destruct (length (matches result) <=? 0)%nat eqn:Hlen; simpl;
      [| apply map_from_match_item_0].
    apply Nat.leb_le in Hlen.
    destruct (matches result); [done | simpl in Hlen; lia].
Qed.

(** C4, as the code has it: when the experimental field is used, the kind of
    the item produced for an element is the table's value for the element's
    type tag when the table maps that tag, the generic [Field] kind when the
    element has no tag (or a falsy one, such as the empty string), and no
    kind at all when the tag is one the table does not map. *)
Theorem experimental_item_kind (document : TextDocument Position)
    (result : INotebookCompletion) :
  spec_valid_experimental result = true →
  ∃ items produced,
    experimental_field result = Some (VArray items)
    ∧ completionItems document result = Normal produced
    ∧ ∀ j item, items !! j = Some item →
        ∃ it, produced !! j = Some it
          ∧ (∀ tag k, type_tag item = Some (VString tag) → tag ≠ EmptyString →
                      mapJupyterKind !! tag = Some k → kind it = Some k)
          ∧ (truthy (type_tag item) = false →
             kind it = Some CompletionItemKind_Field)
          ∧ (∀ tag, type_tag item = Some (VString tag) → tag ≠ EmptyString →
                    mapJupyterKind !! tag = None → kind it = None).
Proof.
  intros Hvalid.
  pose proof (completionItems_spec document result (spec_valid_no_null _ Hvalid))
    as Hspec.
  rewrite Hvalid in Hspec.
  destruct Hspec as (items & produced & Hfield & Hrun & Hlen & Hnth).
  exists items, produced. repeat split; try done.
  intros j item Hj. destruct (Hnth j item Hj) as (it & Hit & _ & Hkind).
  exists it. split; [done |].
  assert (∀ tag, tag ≠ EmptyString → truthy (Some (VString tag)) = true) as Htag.
  { intros tag Hne. simpl. destruct (String.eqb_spec tag EmptyString); done. }
  repeat split.
  - intros tag k Htype Hne Hmap. rewrite Hkind, Htype, Htag by done. done.
  - intros Hfalsy. by rewrite Hkind, Hfalsy.
  - intros tag Htype Hne Hmap. rewrite Hkind, Htype, Htag by done. done.
Qed.

End NormalisationFacts.

(** ** Examples of the normalisation *)

Section NormalisationExamples.
Import Js Async SortKey Completion Samples.

Example two_records_items :
  completionItems Z (Z * Z) pair sample_kinds (offsets_document true "ab") two_records
  = Normal [ {| label := "abcd"; range := Some (2, 4); kind := Some 2;
                sortText := "AA" |};
             {| label := "abce"; range := Some (2, 4); kind := None;
                sortText := "AB" |} ].
Proof. vm_compute. reflexivity. Qed.

Example one_without_text_items :
  completionItems Z (Z * Z) pair sample_kinds (offsets_document true "ab")
    one_without_text
  = Normal [ {| label := "a"; range := None; kind := None; sortText := "AA" |};
             {| label := "b"; range := None; kind := None; sortText := "AB" |} ].
Proof. vm_compute. reflexivity. Qed.

(** C2 at an input with a [null] element, where the sentence would have the
    items of [matches]: the field is not valid, and reading [start] of the
    [null] raises before anything is produced. *)
Lemma completionItems_null_element_raises :
  spec_valid_experimental one_null = false
  ∧ completionItems Z (Z * Z) pair sample_kinds (offsets_document true "a") one_null
    = TypeError
  ∧ completionItems Z (Z * Z) pair sample_kinds (offsets_document true "a") one_null
    ≠ Normal (spec_match_items (Z * Z) (matches one_null)).
Proof. repeat split; [by vm_compute ..|]. vm_compute. discriminate. Qed.

(** C4 at an element whose tag the table does not map: the item has no kind,
    where the sentence would have [Field]. *)
Lemma unknown_tag_has_no_kind :
  sample_kinds !! "instance" = None
  ∧ type_tag (experimental_record 2 4 "abce" "instance") = Some (VString "instance")
  ∧ completionItems Z (Z * Z) pair sample_kinds (offsets_document true "ab")
      two_records
    = Normal [ {| label := "abcd"; range := Some (2, 4); kind := Some 2;
                  sortText := "AA" |};
               {| label := "abce"; range := Some (2, 4); kind := None;
                  sortText := "AB" |} ]
  ∧ None ≠ Some CompletionItemKind_Field.
Proof. repeat split; by vm_compute. Qed.

Lemma experimental_item_kind_witness :
  spec_valid_experimental two_records = true
  ∧ ∃ items produced,
      experimental_field two_records = Some (VArray items)
      ∧ completionItems Z (Z * Z) pair sample_kinds (offsets_document true "ab")
          two_records = Normal produced
      ∧ ∀ j item, items !! j = Some item →
          ∃ it, produced !! j = Some it
            ∧ (∀ tag k, type_tag item = Some (VString tag) → tag ≠ EmptyString →
                        sample_kinds !! tag = Some k → kind it = Some k)
            ∧ (truthy (type_tag item) = false →
               kind it = Some CompletionItemKind_Field)
            ∧ (∀ tag, type_tag item = Some (VString tag) → tag ≠ EmptyString →
                      sample_kinds !! tag = None → kind it = None).
Proof.
  split; [reflexivity |].
  exact (experimental_item_kind pair sample_kinds (offsets_document true "ab")
           two_records eq_refl).
Defined.

End NormalisationExamples.

(** ** The completion request *)

Section ProviderFacts.
Import Js Async SortKey Completion.

Context {Position Range NotebookDocument : Type}.
Variable newRange : Position → Position → Range.
Variable findAssociatedNotebookDocument : string → option NotebookDocument.
Variable kernelProvider_get : NotebookDocument → option IKernel.
Variable mapJupyterKind : gmap string CompletionItemKind.
Variable timeout : nat.

Local Abbreviation completionItems :=
  (completionItems Position Range newRange mapJupyterKind).
Local Abbreviation provideCompletionItems :=
  (provideCompletionItems Position Range NotebookDocument newRange
     findAssociatedNotebookDocument kernelProvider_get mapJupyterKind timeout).
Local Abbreviation timeoutBranch := (timeoutBranch timeout).

(** The empty result has no items. *)
Lemma completionItems_emptyResult (document : TextDocument Position) :
  completionItems document emptyResult = Normal [].
Proof. reflexivity. Qed.

(** Any reply is normalised; a reply whose content has [matches] keeps its
    four fields, every other one becomes the empty result. *)
Lemma normalize_complete_reply ms cs ce md :
  normalize (Some {| content := Some (CompleteReply ms cs ce md) |})
  = {| matches := ms; cursor_start := cs; cursor_end := ce; metadata := md |}.
Proof. reflexivity. Qed.

Lemma normalize_other (reply : option ICompleteReplyMsg) :
  (∀ ms cs ce md, reply ≠ Some {| content := Some (CompleteReply ms cs ce md) |}) →
  normalize reply = emptyResult.
Proof.
  intros Hother. destruct reply as [[[[ms cs ce md | other] |]] |]; try done.
  by destruct (Hother ms cs ce md).
Qed.

(** When the token is cancelled before the request is answered, the race of
    [getJupyterCompletion] is won by the cancellation, with no result. *)
Lemma completionRace_cancelled (session : IJupyterSession) (cellCode : string)
    (offsetInCode : Z) (token : CancellationToken) (c : nat) :
  cancelledAt token = Some c →
  settles_after c (requestComplete session cellCode offsetInCode) →
  completionRace session cellCode offsetInCode (Some token)
  = Some (c, Fulfilled None).
Proof.
  intros Hcancel Hafter. unfold completionRace, createPromiseFromCancellation.
  rewrite Hcancel. unfold race.
  destruct (requestComplete session cellCode offsetInCode) as [[t outcome] |];
    [| done].
  simpl in Hafter. destruct (Nat.leb_spec t c); [lia | done].
Qed.

(** C9: for a document that is not a notebook cell the answer is the empty
    list, at once, and no collaborator is called: not the notebook resolver,
    not the kernel provider, not the request of the kernel. *)
Theorem provideCompletionItems_not_notebook_cell (document : TextDocument Position)
    (position : Position) (token : CancellationToken) :
  isNotebookCell document = false →
  provideCompletionItems document position token = ([], resolved []).
Proof.
  intros Hcell. unfold Completion.provideCompletionItems. by rewrite Hcell.
Qed.

(** C7: when the token is cancelled before the timer expires and before the
    request is answered, the timer gives no result (not the empty one), the
    race of the request against the cancellation is fulfilled with no result
    at the instant of the cancellation, and [provideCompletionItems] is
    fulfilled, with the empty list. *)
Theorem provideCompletionItems_cancelled (document : TextDocument Position)
    (position : Position) (token : CancellationToken) (c : nat) :
  cancelledAt token = Some c →
  (c < timeout)%nat →
  (∀ notebook kernel kernel_session,
     findAssociatedNotebookDocument (uri document) = Some notebook →
     kernelProvider_get notebook = Some kernel →
     session kernel = Some kernel_session →
     settles_after c (requestComplete kernel_session (getText document)
                        (offsetAt document position))) →
  timeoutBranch token = Some (timeout, Fulfilled None)
  ∧ (∀ notebook kernel kernel_session,
       findAssociatedNotebookDocument (uri document) = Some notebook →
       kernelProvider_get notebook = Some kernel →
       session kernel = Some kernel_session →
       completionRace kernel_session (getText document)
         (offsetAt document position) (Some token)
       = Some (c, Fulfilled None))
  ∧ ∃ t, (provideCompletionItems document position token).2
         = Some (t, Fulfilled []).
Proof.
  intros Hcancel Htimeout Hafter. split; [| split].
  - unfold Completion.timeoutBranch, isCancellationRequested. rewrite Hcancel.
    simpl. destruct (Nat.leb_spec c timeout); [done | lia].
  - intros notebook kernel kernel_session Hnb Hkernel Hsession.
    apply completionRace_cancelled; eauto.
  - unfold Completion.provideCompletionItems.
    destruct (isNotebookCell document); simpl; [| by exists 0%nat].
    destruct (findAssociatedNotebookDocument (uri document)) as [notebook |] eqn:Hnb;
      [| by exists 0%nat].
    destruct (kernelProvider_get notebook) as [kernel |] eqn:Hkernel;
      [| by exists 0%nat].
    destruct (session kernel) as [kernel_session |] eqn:Hsession;
      [| by exists 0%nat].
    unfold getJupyterCompletion.
    destruct (String.eqb (status kernel_session) "busy").
    + exists 0%nat. reflexivity.
    + rewrite (completionRace_cancelled _ _ _ _ c) by eauto.
      exists c. simpl. destruct (Nat.leb_spec c timeout); [| lia]. reflexivity.
Qed.

End ProviderFacts.

(** ** Examples of the completion request *)

Section ProviderExamples.
Import Js Async SortKey Completion Samples.

(** The provider with offsets for positions, one notebook, a kernel with the
    session [s], the sample kinds and a timeout of 5. *)
Local Abbreviation provide s :=
  (provideCompletionItems Z (Z * Z) nat pair one_notebook (kernel_of s)
     sample_kinds 5).

(** The reply with [os.environ] gives one item with that label and no range. *)
Example os_environ_items :
  provide (sample_session "idle" (Some 2%nat) (Some os_environ_reply))
    (offsets_document true "os.env") 6 {| cancelledAt := None |}
  = ([FindAssociatedNotebookDocument "cell:1"; KernelProviderGet;
      RequestComplete "os.env" 6],
     Some (2%nat, Fulfilled [ {| label := "os.environ"; range := None;
                                 kind := None; sortText := "AA" |} ])).
Proof. vm_compute. reflexivity. Qed.

(** The request is never answered, the token never cancelled: the timer wins
    and there are no items. *)
Example timed_out_items :
  provide (sample_session "idle" None None)
    (offsets_document true "os.env") 6 {| cancelledAt := None |}
  = ([FindAssociatedNotebookDocument "cell:1"; KernelProviderGet;
      RequestComplete "os.env" 6],
     Some (5%nat, Fulfilled [])).
Proof. vm_compute. reflexivity. Qed.

Lemma provideCompletionItems_not_notebook_cell_witness :
  isNotebookCell (offsets_document false "os.env") = false
  ∧ provide (sample_session "idle" (Some 2%nat) (Some os_environ_reply))
      (offsets_document false "os.env") 6 {| cancelledAt := None |}
    = ([], resolved []).
Proof.
  split; [reflexivity |].
  apply provideCompletionItems_not_notebook_cell. reflexivity.
Defined.

(** The same session when it is idle: the request is made, and its answer
    normalised. *)
Example getJupyterCompletion_idle :
  getJupyterCompletion
    (sample_session "idle" (Some 2%nat) (Some os_environ_reply)) "os.env" 6 None
  = ([RequestComplete "os.env" 6],
     Some (2%nat, Fulfilled {| matches := ["os.environ"]; cursor_start := Some 0;
                               cursor_end := Some 0;
                               metadata := Some (VObject ∅) |})).
Proof. reflexivity. Qed.

(** A reply without content, and a content without [matches]. *)
Example getJupyterCompletion_no_matches :
  (getJupyterCompletion
     (sample_session "idle" (Some 2%nat) (Some {| content := None |})) "x" 1 None).2
  = Some (2%nat, Fulfilled emptyResult)
  ∧ (getJupyterCompletion
       (sample_session "idle" (Some 2%nat)
          (Some {| content := Some (OtherReply "error") |})) "x" 1 None).2
    = Some (2%nat, Fulfilled emptyResult).
Proof. split; reflexivity. Qed.

Lemma provideCompletionItems_cancelled_witness :
  cancelledAt {| cancelledAt := Some 1%nat |} = Some 1%nat
  ∧ (1 < 5)%nat
  ∧ timeoutBranch 5 {| cancelledAt := Some 1%nat |} = Some (5%nat, Fulfilled None)
  ∧ ∃ t, (provide (sample_session "idle" (Some 3%nat) (Some os_environ_reply))
            (offsets_document true "os.env") 6 {| cancelledAt := Some 1%nat |}).2
         = Some (t, Fulfilled []).
Proof.
  split; [reflexivity |]. split; [lia |].
  pose proof (provideCompletionItems_cancelled (Position := Z) (Range := Z * Z)
                pair one_notebook
                (kernel_of (sample_session "idle" (Some 3%nat) (Some os_environ_reply)))
                sample_kinds 5 (offsets_document true "os.env") 6
                {| cancelledAt := Some 1%nat |} 1%nat eq_refl) as Hthm.
  destruct Hthm as (Htimer & _ & Hitems).
  - lia.
  - intros notebook kernel kernel_session _ Hkernel Hsession.
    injection Hkernel as <-. injection Hsession as <-. simpl. lia.
  - split; [exact Htimer | exact Hitems].
Defined.

End ProviderExamples.

(** ** The raw notebook provider *)

Section RegistryFacts.
Import Async Registry.

(** *** The two removal closures *)

Lemma onDidDispose_listener_removeNotebook (key : string) (notebook : PromiseRef)
    (w : world) :
  onDidDispose_listener key notebook w = removeNotebook key notebook w.
Proof. reflexivity. Qed.

Lemma removeNotebook_notebooks (key : string) (notebook : PromiseRef) (w : world) :
  notebooks (removeNotebook key notebook w)
  = if decide (notebooks w !! key = Some notebook)
    then delete key (notebooks w) else notebooks w.
Proof. unfold removeNotebook. by case_decide. Qed.

(** A closure leaves alone every entry but the one it was made for. *)
Lemma removeNotebook_other (key k : string) (notebook p : PromiseRef) (w : world) :
  notebooks w !! k = Some p →
  (key, notebook) ≠ (k, p) →
  notebooks (removeNotebook key notebook w) !! k = Some p.
Proof.
  intros Hk Hne. rewrite removeNotebook_notebooks. case_decide as Hkey; [| done].
  destruct (decide (key = k)) as [-> | Hkk].
  - rewrite Hk in Hkey. congruence.
  - by rewrite lookup_delete_ne.
Qed.

(** A closure removes an entry only when it is the one it was made for. *)
Lemma removeNotebook_removes (key k : string) (notebook p : PromiseRef) (w : world) :
  notebooks w !! k = Some p →
  notebooks (removeNotebook key notebook w) !! k = None →
  key = k ∧ notebook = p.
Proof.
  intros Hk Hgone.
  destruct (decide ((key, notebook) = (k, p))) as [[= -> ->] | Hne]; [done |].
  rewrite (removeNotebook_other _ _ _ _ _ Hk Hne) in Hgone. done.
Qed.

Lemma removeNotebook_rest (key : string) (notebook : PromiseRef) (w : world) :
  connection_state (removeNotebook key notebook w) = connection_state w
  ∧ promises (removeNotebook key notebook w) = promises w
  ∧ listeners (removeNotebook key notebook w) = listeners w
  ∧ reactions (removeNotebook key notebook w) = reactions w
  ∧ disposed (removeNotebook key notebook w) = disposed w.
Proof. unfold removeNotebook. by case_decide. Qed.

(** *** Reactions and listeners, run in a row *)

Lemma react_other (key k : string) (notebook p : PromiseRef)
    (outcome : settled INotebook) (w : world) :
  notebooks w !! k = Some p →
  (key, notebook) ≠ (k, p) →
  notebooks (react key notebook outcome w) !! k = Some p.
Proof.
  intros Hk Hne. destruct outcome as [nb |]; simpl; [done |].
  by apply removeNotebook_other.
Qed.

Lemma reactions_other (k : string) (notebook p : PromiseRef)
    (outcome : settled INotebook) (rs : list (PromiseRef * string)) (w : world) :
  notebooks w !! k = Some p →
  notebook ≠ p →
  notebooks (foldl (λ w r, react r.2 notebook outcome w) w rs) !! k = Some p.
Proof.
  revert w. induction rs as [| r rs IH]; intros w Hk Hne; [done |]. simpl.
  apply IH; [| done]. apply react_other; [done | congruence].
Qed.

Lemma listeners_other (k : string) (p : PromiseRef)
    (ls : list (SessionRef * (string * PromiseRef))) (w : world) :
  notebooks w !! k = Some p →
  (∀ l, l ∈ ls → l.2 ≠ (k, p)) →
  notebooks (foldl (λ w l, onDidDispose_listener l.2.1 l.2.2 w) w ls) !! k = Some p.
Proof.
  revert w. induction ls as [| l ls IH]; intros w Hk Hne; [done |]. simpl.
  apply IH.
  - apply removeNotebook_other; [done |].
    intros Heq. apply (Hne l); [left |]. by destruct l as [s [k' p']].
  - intros l' Hl'. apply Hne. by right.
Qed.

(** When an entry is gone after the listeners ran, one of them was its own. *)
Lemma listeners_removes (k : string) (p : PromiseRef)
    (ls : list (SessionRef * (string * PromiseRef))) (w : world) :
  notebooks w !! k = Some p →
  notebooks (foldl (λ w l, onDidDispose_listener l.2.1 l.2.2 w) w ls) !! k = None →
  ∃ l, l ∈ ls ∧ l.2 = (k, p).
Proof.
  intros Hk Hgone.
  destruct (decide (Exists (λ l, l.2 = (k, p)) ls)) as [Hex | Hno].
  - apply Exists_exists in Hex. done.
  - rewrite (listeners_other k p) in Hgone; [done | done |].
    intros l Hl Heq. apply Hno, Exists_exists. eauto.
Qed.

(** When an entry is gone after the reactions of a promise ran, the promise
    was rejected and one of the reactions was the entry's own. *)
Lemma reactions_removes (k : string) (notebook p : PromiseRef)
    (outcome : settled INotebook) (rs : list (PromiseRef * string)) (w : world) :
  notebooks w !! k = Some p →
  notebooks (foldl (λ w r, react r.2 notebook outcome w) w rs) !! k = None →
  notebook = p ∧ outcome = Rejected ∧ ∃ r, r ∈ rs ∧ r.2 = k.
Proof.
  revert w. induction rs as [| r rs IH]; intros w Hk Hgone; simpl in Hgone.
  - congruence.
  - destruct (notebooks (react r.2 notebook outcome w) !! k) as [q |] eqn:Hstep.
    + assert (q = p) as ->.
      { destruct outcome as [nb |]; simpl in Hstep; [congruence |].
        rewrite removeNotebook_notebooks in Hstep. case_decide; [| congruence].
        apply lookup_delete_Some in Hstep as [_ Hstep]. congruence. }
      destruct (IH _ Hstep Hgone) as (-> & -> & r' & Hr' & Hkey).
      repeat split; try done. exists r'. split; [by right | done].
    + destruct outcome as [nb |]; simpl in Hstep; [congruence |].
      apply (removeNotebook_removes _ _ _ _ _ Hk) in Hstep as [Hkey ->].
      repeat split; try done. exists r. split; [by left | done].
Qed.

(** *** What each operation leaves alone *)

Lemma foldl_connection_state {A} (f : world → A → world) (xs : list A) (w : world) :
  (∀ w x, connection_state (f w x) = connection_state w) →
  connection_state (foldl f w xs) = connection_state w.
Proof.
  intros Hf. revert w. induction xs as [| x xs IH]; intros w; [done |].
  simpl. by rewrite IH, Hf.
Qed.

Lemma react_connection_state (key : string) (notebook : PromiseRef)
    (outcome : settled INotebook) (w : world) :
  connection_state (react key notebook outcome w) = connection_state w.
Proof.
  destruct outcome as [nb |]; simpl; [done |]. apply removeNotebook_rest.
Qed.

Lemma setNotebook_connection_state (key : string) (notebook : PromiseRef) (w : world) :
  connection_state (setNotebook key notebook w) = connection_state w.
Proof.
  unfold setNotebook. destruct (promises w !! notebook) as [outcome |]; [| done].
  by rewrite react_connection_state.
Qed.

Lemma settle_connection_state (p : PromiseRef) (outcome : settled INotebook)
    (w : world) :
  connection_state (settle p outcome w) = connection_state w.
Proof.
  unfold settle. destruct (promises w !! p); [done |].
  rewrite foldl_connection_state; [done |].
  intros w' r. apply react_connection_state.
Qed.

Lemma sessionDisposed_connection_state (s : SessionRef) (w : world) :
  connection_state (sessionDisposed s w) = connection_state w.
Proof.
  unfold sessionDisposed. rewrite foldl_connection_state; [done |].
  intros w' l. apply removeNotebook_rest.
Qed.

Lemma listeners_rest (ls : list (SessionRef * (string * PromiseRef))) (w : world) :
  promises (foldl (λ w l, onDidDispose_listener l.2.1 l.2.2 w) w ls) = promises w
  ∧ reactions (foldl (λ w l, onDidDispose_listener l.2.1 l.2.2 w) w ls) = reactions w
  ∧ listeners (foldl (λ w l, onDidDispose_listener l.2.1 l.2.2 w) w ls) = listeners w
  ∧ disposed (foldl (λ w l, onDidDispose_listener l.2.1 l.2.2 w) w ls) = disposed w.
Proof.
  revert w. induction ls as [| l ls IH]; intros w; cbn [foldl]; [done |].
  rewrite onDidDispose_listener_removeNotebook.
  destruct (IH (removeNotebook l.2.1 l.2.2 w)) as (-> & -> & -> & ->).
  by destruct (removeNotebook_rest l.2.1 l.2.2 w) as (_ & -> & -> & -> & ->).
Qed.

(** Disposing of sessions logs each call, in order, and leaves the
    connection, the promises, the reactions and the listeners as they are. *)
Lemma dispose_sessions_rest (nbs : list INotebook) (w : world) :
  connection_state (dispose_sessions nbs w) = connection_state w
  ∧ promises (dispose_sessions nbs w) = promises w
  ∧ reactions (dispose_sessions nbs w) = reactions w
  ∧ listeners (dispose_sessions nbs w) = listeners w
  ∧ disposed (dispose_sessions nbs w) = (disposed w ++ (session <$> nbs))%list.
Proof.
  unfold dispose_sessions. revert w.
  induction nbs as [| nb nbs IH]; intros w; cbn [foldl].
  - simpl. by rewrite app_nil_r.
  - destruct (IH (session_dispose nb w)) as (-> & -> & -> & -> & ->).
    unfold session_dispose. rewrite sessionDisposed_connection_state.
    unfold sessionDisposed.
    destruct (listeners_rest
                (filter (λ l, l.1 = session nb)
                   (listeners (session_dispose_called (session nb) w)))
                (session_dispose_called (session nb) w)) as (-> & -> & -> & ->).
    simpl. by rewrite <- app_assoc.
Qed.

Lemma dispose_resume_rest (ps : list PromiseRef) (w : world) :
  connection_state (dispose_resume ps w).2 = connection_state w
  ∧ promises (dispose_resume ps w).2 = promises w
  ∧ reactions (dispose_resume ps w).2 = reactions w
  ∧ listeners (dispose_resume ps w).2 = listeners w.
Proof.
  unfold dispose_resume. destruct (all_settled ps w) as [[nbs |] |]; try done.
  simpl. by destruct (dispose_sessions_rest nbs w) as (-> & -> & -> & -> & _).
Qed.

Lemma connect_notebooks (getOnly : bool) (w : world) :
  notebooks (connect getOnly w).2 = notebooks w.
Proof. unfold connect. destruct getOnly, (rawConnection w); done. Qed.

Lemma getConnection_notebooks (w : world) :
  notebooks (getConnection w).2 = notebooks w.
Proof. unfold getConnection. by destruct (rawConnection w). Qed.

(** *** The connection *)

Lemma singleton_connection_initial : singleton_connection initial.
Proof. by left. Qed.

Lemma connect_singleton_connection (getOnly : bool) (w : world) :
  singleton_connection w → singleton_connection (connect getOnly w).2.
Proof.
  unfold singleton_connection, connection_state, connect.
  destruct getOnly; [done |].
  intros [[= Hconn Hcount] | [= Hconn Hcount]]; rewrite Hconn; simpl.
  - right. by rewrite Hcount.
  - right. by rewrite Hconn, Hcount.
Qed.

Lemma getConnection_singleton_connection (w : world) :
  singleton_connection w → singleton_connection (getConnection w).2.
Proof.
  unfold singleton_connection, connection_state, getConnection.
  intros [[= Hconn Hcount] | [= Hconn Hcount]]; rewrite Hconn; simpl.
  - right. by rewrite Hcount.
  - right. by rewrite Hconn, Hcount.
Qed.

Lemma step_singleton_connection (w : world) (e : event) :
  singleton_connection w → singleton_connection (step w e).
Proof.
  intros Hw. destruct e as [getOnly | | key | key notebook | p outcome | s | | ps];
    simpl.
  - by apply connect_singleton_connection.
  - by apply getConnection_singleton_connection.
  - done.
  - unfold singleton_connection. by rewrite setNotebook_connection_state.
  - unfold singleton_connection. by rewrite settle_connection_state.
  - unfold singleton_connection. by rewrite sessionDisposed_connection_state.
  - unfold singleton_connection, dispose.
    by rewrite (proj1 (dispose_resume_rest _ _)).
  - unfold singleton_connection.
    by rewrite (proj1 (dispose_resume_rest _ _)).
Qed.

Lemma run_singleton_connection (es : list event) (w : world) :
  singleton_connection w → singleton_connection (run es w).
Proof.
  revert w. induction es as [| e es IH]; intros w Hw; [done |].
  simpl. by apply IH, step_singleton_connection.
Qed.

(** Once there is a connection, it stays the one held. *)
Lemma run_keeps_connection (es : list event) (w : world) (c : RawConnection) :
  singleton_connection w → rawConnection w = Some c →
  rawConnection (run es w) = Some c ∧ constructed (run es w) = 1%nat.
Proof.
  revert w. induction es as [| e es IH]; intros w Hw Hc.
  - destruct Hw as [[= Hconn Hcount] | [= Hconn Hcount]]; [congruence | done].
  - simpl. apply IH; [by apply step_singleton_connection |].
    assert (connection_state w = (Some c, constructed w)) as Hstate
      by (unfold connection_state; by rewrite Hc).
    destruct e as [getOnly | | key | key notebook | p outcome | s | | ps]; simpl.
    + unfold connect. destruct getOnly; [done |]. by rewrite Hc.
    + unfold getConnection. by rewrite Hc.
    + done.
    + pose proof (setNotebook_connection_state key notebook w) as H.
      rewrite Hstate in H. by injection H.
    + pose proof (settle_connection_state p outcome w) as H.
      rewrite Hstate in H. by injection H.
    + pose proof (sessionDisposed_connection_state s w) as H.
      rewrite Hstate in H. by injection H.
    + pose proof (proj1 (dispose_resume_rest (getNotebooks w) w)) as H.
      rewrite Hstate in H. by injection H.
    + pose proof (proj1 (dispose_resume_rest ps w)) as H.
      rewrite Hstate in H. by injection H.
Qed.

(** C6: on a new provider [connect] with [getOnly] returns no connection and
    changes nothing; at any time it returns what is held and constructs
    nothing. Whatever has happened to a provider, at most one
    [RawConnection] was constructed; [connect] without [getOnly] then returns
    a connection, and whatever happens next, [connect] in either mode and
    [getConnection] return that same connection and construct no other. *)
Theorem connect_singleton (es es' : list event) (getOnly : bool) :
  connect true initial = (None, initial)
  ∧ connect true (run es initial) = (rawConnection (run es initial), run es initial)
  ∧ constructed (connect false initial).2 = 1%nat
  ∧ (constructed (run es initial) ≤ 1)%nat
  ∧ ∃ c,
      (connect false (run es initial)).1 = Some c
      ∧ constructed (connect false (run es initial)).2 = 1%nat
      ∧ (connect getOnly (run es' (connect false (run es initial)).2)).1 = Some c
      ∧ (getConnection (run es' (connect false (run es initial)).2)).1 = c
      ∧ constructed (connect getOnly (run es' (connect false (run es initial)).2)).2
        = 1%nat
      ∧ constructed (getConnection (run es' (connect false (run es initial)).2)).2
        = 1%nat.
Proof.
  split; [done |]. split; [done |]. split; [done |].
  pose proof (run_singleton_connection es initial singleton_connection_initial)
    as Hw.
  split.
  { destruct Hw as [[= _ ->] | [= _ ->]]; lia. }
  pose proof (connect_singleton_connection false _ Hw) as Hw1.
  set (w1 := (connect false (run es initial)).2) in *.
  assert (rawConnection w1 = (connect false (run es initial)).1) as Hfst by done.
  assert (∃ c, rawConnection w1 = Some c) as [c Hc].
  { subst w1. unfold connect. destruct (rawConnection (run es initial)) eqn:Hconn.
    - rewrite Hconn. eauto.
    - simpl. eauto. }
  exists c. rewrite <- Hfst.
  destruct (run_keeps_connection es' w1 c Hw1 Hc) as [Hc2 Hcount2].
  destruct (run_keeps_connection [] w1 c Hw1 Hc) as [_ Hcount1].
  repeat split; try done.
  - unfold connect. destruct getOnly; [done |]. by rewrite Hc2.
  - unfold getConnection. by rewrite Hc2.
  - unfold connect. destruct getOnly; [done |]. by rewrite Hc2.
  - unfold getConnection. by rewrite Hc2.
Qed.

(** *** Registrations *)

Lemma setNotebook_promises (key : string) (notebook : PromiseRef) (w : world) :
  promises (setNotebook key notebook w) = promises w.
Proof.
  unfold setNotebook. destruct (promises w !! notebook) as [[nb |] |]; simpl;
    try done.
  by rewrite (proj1 (proj2 (removeNotebook_rest _ _ _))).
Qed.

(** A registration leaves its promise in the map, unless the promise was
    rejected already. *)
Lemma setNotebook_lookup (key : string) (notebook : PromiseRef) (w : world) :
  rejected w notebook = false →
  notebooks (setNotebook key notebook w) !! key = Some notebook.
Proof.
  unfold rejected, setNotebook.
  destruct (promises w !! notebook) as [[nb |] |]; simpl; try done; intros _;
    apply lookup_insert_eq.
Qed.

Lemma settle_other (k : string) (p1 p : PromiseRef) (outcome : settled INotebook)
    (w : world) :
  notebooks w !! k = Some p → p1 ≠ p →
  notebooks (settle p1 outcome w) !! k = Some p.
Proof.
  intros Hk Hne. unfold settle. destruct (promises w !! p1); [done |].
  by apply reactions_other.
Qed.

Lemma sessionDisposed_other (k : string) (p : PromiseRef) (s : SessionRef)
    (w : world) :
  notebooks w !! k = Some p → (s, (k, p)) ∉ listeners w →
  notebooks (sessionDisposed s w) !! k = Some p.
Proof.
  intros Hk Hno. unfold sessionDisposed. apply listeners_other; [done |].
  intros [s' [k' p']] [Hs Hin]%list_elem_of_filter [= -> ->].
  simpl in Hs. by subst s'.
Qed.

(** C5: let [p1] be registered for a key and then a different promise [p2]
    for the same key. The entry of the key holds [p2] (unless [p2] was
    rejected already, in which case its own rejection handler removes it).
    While the entry holds [p2], neither the disposal listener nor the
    rejection handler of [p1]'s registration removes it, nor does the
    settling of [p1], nor the disposal signal of a session on which the
    registration of [p2] does not listen. In general a removal closure
    deletes the entry of its key only when the map holds the very promise
    it was registered with. *)
Theorem superseded_registration_keeps_entry (w : world) (key : string)
    (p1 p2 : PromiseRef) :
  p1 ≠ p2 →
  (rejected w p2 = false →
   notebooks (setNotebook key p2 (setNotebook key p1 w)) !! key = Some p2)
  ∧ (∀ w', notebooks w' !! key = Some p2 →
       notebooks (onDidDispose_listener key p1 w') !! key = Some p2
       ∧ notebooks (removeNotebook key p1 w') !! key = Some p2
       ∧ (∀ outcome, notebooks (settle p1 outcome w') !! key = Some p2)
       ∧ (∀ s, (s, (key, p2)) ∉ listeners w' →
               notebooks (sessionDisposed s w') !! key = Some p2))
  ∧ (∀ w' p, notebooks w' !! key = Some p →
       (notebooks (onDidDispose_listener key p1 w') !! key = None ↔ p = p1)
       ∧ (notebooks (removeNotebook key p1 w') !! key = None ↔ p = p1)).
Proof.
  intros Hne. split; [| split].
  - intros Hp2. apply setNotebook_lookup.
    unfold rejected in *. by rewrite setNotebook_promises.
  - intros w' Hk. repeat split.
    + rewrite onDidDispose_listener_removeNotebook.
      apply removeNotebook_other; [done | congruence].
    + apply removeNotebook_other; [done | congruence].
    + intros outcome. by apply settle_other.
    + intros s Hs. by apply sessionDisposed_other.
  - intros w' p Hk.
    assert (notebooks (removeNotebook key p1 w') !! key = None ↔ p = p1) as Hiff.
    { split.
      - intros Hgone. by destruct (removeNotebook_removes _ _ _ _ _ Hk Hgone).
      - intros ->. rewrite removeNotebook_notebooks. case_decide; [| done].
        apply lookup_delete_eq. }
    split; [by rewrite onDidDispose_listener_removeNotebook | done].
Qed.

(** *** Disposal *)

Lemma all_settled_fulfilled (ps : list PromiseRef) (nbs : list INotebook) (w : world) :
  Forall2 (λ p nb, promises w !! p = Some (Fulfilled nb)) ps nbs →
  all_settled ps w = Some (Fulfilled nbs).
Proof.
  intros Hall. unfold all_settled.
  assert (existsb (rejected w) ps = false) as ->.
  { induction Hall as [| p nb ps nbs Hp _ IH]; [done |].
    simpl. unfold rejected at 1. by rewrite Hp. }
  assert (mapM (λ p, match promises w !! p with
                     | Some (Fulfilled nb) => Some nb
                     | _ => None
                     end) ps = Some nbs) as ->; [| done].
  induction Hall as [| p nb ps nbs Hp _ IH]; [done |].
  simpl. rewrite Hp. simpl. by rewrite IH.
Qed.

Lemma all_settled_rejected (ps : list PromiseRef) (p : PromiseRef) (w : world) :
  p ∈ ps → promises w !! p = Some Rejected →
  all_settled ps w = Some Rejected.
Proof.
  intros Hin Hp. unfold all_settled.
  assert (existsb (rejected w) ps = true) as ->; [| done].
  apply existsb_exists. exists p. split; [by apply list_elem_of_In |].
  unfold rejected. by rewrite Hp.
Qed.

Lemma all_settled_pending (ps : list PromiseRef) (p : PromiseRef) (w : world) :
  p ∈ ps → promises w !! p = None →
  (∀ q, q ∈ ps → promises w !! q ≠ Some Rejected) →
  all_settled ps w = None.
Proof.
  intros Hin Hp Hnone. unfold all_settled.
  assert (existsb (rejected w) ps = false) as ->.
  { apply not_true_is_false. intros (q & Hq & Hrej)%existsb_exists.
    apply list_elem_of_In in Hq. apply (Hnone q Hq).
    unfold rejected in Hrej. by destruct (promises w !! q) as [[nb |] |]. }
  destruct (mapM _ ps) as [nbs |] eqn:HmapM; [| done].
  apply mapM_Some in HmapM.
  apply list_elem_of_lookup in Hin as [i Hi].
  destruct (Forall2_lookup_l _ _ _ _ _ HmapM Hi) as (nb & _ & Hnb).
  by rewrite Hp in Hnb.
Qed.

(** C3, as the code has it: [dispose] waits for the promises that were in
    the map when it was called. Once all of them are fulfilled it calls
    [dispose()] on the session of each, in order, and on nothing else. As
    soon as one of them is rejected [dispose] is rejected too, and calls
    [dispose()] on no session, whatever became of the other promises. While
    none is rejected and one is pending it keeps waiting. *)
Theorem dispose_all_or_none (ps : list PromiseRef) (w : world) :
  (∀ nbs, Forall2 (λ p nb, promises w !! p = Some (Fulfilled nb)) ps nbs →
     (dispose_resume ps w).1 = Requested
     ∧ disposed (dispose_resume ps w).2 = (disposed w ++ (session <$> nbs))%list)
  ∧ (∀ p, p ∈ ps → promises w !! p = Some Rejected →
       dispose_resume ps w = (Aborted, w))
  ∧ (∀ p, p ∈ ps → promises w !! p = None →
       (∀ q, q ∈ ps → promises w !! q ≠ Some Rejected) →
       dispose_resume ps w = (Waiting, w)).
Proof.
  unfold dispose_resume. repeat split.
  - by rewrite (all_settled_fulfilled _ _ _ H).
  - rewrite (all_settled_fulfilled _ _ _ H). apply dispose_sessions_rest.
  - intros p Hin Hp. by rewrite (all_settled_rejected _ _ _ Hin Hp).
  - intros p Hin Hp Hnone. by rewrite (all_settled_pending _ _ _ Hin Hp Hnone).
Qed.

End RegistryFacts.

(** ** Examples of the raw notebook provider *)

Section RegistryExamples.
Import Async Registry Samples.

(** [docA] registered twice: the map holds the second promise, also after
    the first one is fulfilled and its session signals its disposal, and
    after the first one is rejected. *)
Example superseded_then_disposed :
  map_to_list (notebooks superseded) = [("docA", 2%nat)]
  ∧ map_to_list
      (notebooks (run [Settle 1%nat (Fulfilled {| session := 7%nat |});
                       SessionDisposed 7%nat] superseded))
    = [("docA", 2%nat)]
  ∧ map_to_list (notebooks (run [Settle 1%nat Rejected] superseded))
    = [("docA", 2%nat)].
Proof. repeat split; by vm_compute. Qed.

(** Without the second registration the same events empty the map. *)
Example registered_then_disposed :
  map_to_list
    (notebooks (run [SetNotebook "docA" 1%nat;
                     Settle 1%nat (Fulfilled {| session := 7%nat |});
                     SessionDisposed 7%nat] initial)) = []
  ∧ map_to_list
      (notebooks (run [SetNotebook "docA" 1%nat; Settle 1%nat Rejected] initial))
    = [].
Proof. split; by vm_compute. Qed.

Lemma superseded_registration_keeps_entry_witness :
  1%nat ≠ 2%nat
  ∧ notebooks superseded !! "docA" = Some 2%nat
  ∧ notebooks (sessionDisposed 7%nat
                 (settle 1%nat (Fulfilled {| session := 7%nat |}) superseded))
    !! "docA" = Some 2%nat
  ∧ notebooks (settle 1%nat Rejected superseded) !! "docA" = Some 2%nat.
Proof.
  assert (1%nat ≠ 2%nat) as Hne by discriminate.
  split; [exact Hne |].
  destruct (superseded_registration_keeps_entry initial "docA" 1%nat 2%nat Hne)
    as (Hset & Hkeep & _).
  assert (notebooks superseded !! "docA" = Some 2%nat) as Hheld.
  { apply Hset. vm_compute. reflexivity. }
  split; [exact Hheld |].
  split.
  - assert (notebooks (settle 1%nat (Fulfilled {| session := 7%nat |}) superseded)
            !! "docA" = Some 2%nat) as Hfulfilled
      by (destruct (Hkeep superseded Hheld) as (_ & _ & Hsettle & _);
          apply Hsettle).
    destruct (Hkeep _ Hfulfilled) as (_ & _ & _ & Hsignal).
    apply Hsignal.
    assert (listeners (settle 1%nat (Fulfilled {| session := 7%nat |}) superseded)
            = [(7%nat, ("docA", 1%nat))]) as -> by (vm_compute; reflexivity).
    intros Hin. apply list_elem_of_singleton in Hin. discriminate.
  - destruct (Hkeep superseded Hheld) as (_ & _ & Hsettle & _).
    apply Hsettle.
Defined.

(** A provider asked for its connection in every way. *)
Example connect_trace :
  (connect true initial).1 = None
  ∧ (connect false initial).1 = Some {| instance := 0 |}
  ∧ (connect true (connect false initial).2).1 = Some {| instance := 0 |}
  ∧ (connect false (connect false initial).2).1 = Some {| instance := 0 |}
  ∧ (getConnection (connect false initial).2).1 = {| instance := 0 |}
  ∧ (connect false (getConnection initial).2).1 = Some {| instance := 0 |}
  ∧ constructed (run [Connect true; GetConnection; Connect false; GetConnection;
                      Connect false] initial) = 1%nat.
Proof. repeat split; by vm_compute. Qed.

(** C3 at a provider with one session created and the creation of another
    in flight when [dispose] is called: the second creation then fails, and
    [dispose] is rejected without having called [dispose()] on the session
    that was created, which the sentence would have disposed. *)
Lemma dispose_aborted_by_one_rejection :
  getNotebooks one_in_flight = [1%nat; 2%nat]
  ∧ promises (settle 2%nat Rejected one_in_flight) !! 1%nat
    = Some (Fulfilled {| session := 7%nat |})
  ∧ (dispose_resume (getNotebooks one_in_flight)
       (settle 2%nat Rejected one_in_flight)).1 = Aborted
  ∧ disposed (dispose_resume (getNotebooks one_in_flight)
                (settle 2%nat Rejected one_in_flight)).2 = []
  ∧ 7%nat ∉ disposed (dispose_resume (getNotebooks one_in_flight)
                        (settle 2%nat Rejected one_in_flight)).2.
Proof.
  repeat split; try by vm_compute.
  assert (disposed (dispose_resume (getNotebooks one_in_flight)
                      (settle 2%nat Rejected one_in_flight)).2 = []) as ->
    by (by vm_compute).
  apply not_elem_of_nil.
Qed.

Lemma dispose_all_or_none_witness :
  Forall2 (λ p nb, promises one_in_flight !! p = Some (Fulfilled nb))
    [1%nat] [{| session := 7%nat |}]
  ∧ (dispose_resume [1%nat] one_in_flight).1 = Requested
  ∧ disposed (dispose_resume [1%nat] one_in_flight).2 = [7%nat].
Proof.
  assert (Forall2 (λ p nb, promises one_in_flight !! p = Some (Fulfilled nb))
            [1%nat] [{| session := 7%nat |}]) as Hall.
  { constructor; [vm_compute; reflexivity | constructor]. }
  split; [exact Hall |].
  destruct (proj1 (dispose_all_or_none [1%nat] one_in_flight) _ Hall)
    as [Hrequested Hdisposed].
  split; [exact Hrequested |].
  rewrite Hdisposed. vm_compute. reflexivity.
Defined.

(** Both creations succeed: both sessions are disposed of, in the order of
    insertion, and their listeners empty the map. *)
Example dispose_both :
  (dispose (settle 2%nat (Fulfilled {| session := 8%nat |}) one_in_flight)).1
  = Requested
  ∧ disposed (dispose (settle 2%nat (Fulfilled {| session := 8%nat |})
                         one_in_flight)).2 = [7%nat; 8%nat]
  ∧ map_to_list (notebooks (dispose (settle 2%nat (Fulfilled {| session := 8%nat |})
                                       one_in_flight)).2)
    = [].
Proof. repeat split; by vm_compute. Qed.

End RegistryExamples.

(** * Further properties *)

(** ** Sort keys, pair by pair *)

Section SortKeyOrderFacts.
Import SortKey SortKeyOrder.

Lemma forall_pairs_spec (f : Z → Z → bool) :
  forall_pairs f = true →
  ∀ i j, 0 <= i → i < j → j < 300 → f i j = true.
Proof.
  intros Hall i j Hi Hij Hj. unfold forall_pairs in Hall.
  rewrite forallb_forall in Hall.
  assert (In i ranks) as Hin_i by (apply list_elem_of_In, ranks_spec; lia).
  specialize (Hall i Hin_i). rewrite forallb_forall in Hall.
  assert (In j ranks) as Hin_j by (apply list_elem_of_In, ranks_spec; lia).
  specialize (Hall j Hin_j).
  destruct (Z.ltb_spec i j); [done | lia].
Qed.

Lemma inverted_spec (i j : Z) :
  inverted i j = true ↔ 50 <= j ∧ j mod 25 = 0 ∧ j - 25 < i.
Proof.
  unfold inverted. rewrite !andb_true_iff, Z.leb_le, Z.eqb_eq, Z.ltb_lt. tauto.
Qed.

Lemma keys_ordered_unless_inverted :
  forall_pairs (λ i j, Bool.eqb (js_lt (generateSortString i) (generateSortString j))
                               (negb (inverted i j))) = true.
Proof. vm_compute. reflexivity. Qed.

Lemma keys_distinct :
  forall_pairs (λ i j, negb (String.eqb (generateSortString i)
                                        (generateSortString j))) = true.
Proof. vm_compute. reflexivity. Qed.

Lemma keys_shape :
  forallb (λ i, (String.length (generateSortString i) =? 2)%nat
                && capitals (generateSortString i)
                && js_lt (generateSortString i) "ZZZZZZZ") ranks = true.
Proof. vm_compute. reflexivity. Qed.

(** The keys of two ranks [i < j] below 300 are in the order of the ranks,
    except when [j] is a multiple of 25 from 50 on and [i] is one of the 24
    ranks before it: then the key of [j] is the lower one. *)
Theorem generateSortString_order (i j : Z) :
  0 <= i → i < j → j < 300 →
  (js_lt (generateSortString i) (generateSortString j) = true
   ↔ ¬ (50 <= j ∧ j mod 25 = 0 ∧ j - 25 < i))
  ∧ (js_lt (generateSortString j) (generateSortString i) = true
     ↔ 50 <= j ∧ j mod 25 = 0 ∧ j - 25 < i).
Proof.
  intros Hi Hij Hj.
  pose proof (forall_pairs_spec _ keys_ordered_unless_inverted i j Hi Hij Hj) as Hord.
  pose proof (forall_pairs_spec _ keys_distinct i j Hi Hij Hj) as Hne.
  apply Bool.eqb_prop in Hord. rewrite <- inverted_spec.
  apply negb_true_iff, String.eqb_neq in Hne.
  unfold js_lt, String.ltb in *.
  destruct (String.compare (generateSortString i) (generateSortString j)) eqn:Hcmp.
  - by apply String.compare_eq_iff in Hcmp.
  - rewrite String.compare_antisym, Hcmp. simpl.
    destruct (inverted i j); simpl in Hord; [done |]. split; split; done.
  - rewrite String.compare_antisym, Hcmp. simpl.
    destruct (inverted i j); simpl in Hord; [| done]. split; split; done.
Qed.

(** Below 300, two different ranks get two different keys. *)
Theorem generateSortString_injective (i j : Z) :
  0 <= i < 300 → 0 <= j < 300 → i ≠ j →
  generateSortString i ≠ generateSortString j.
Proof.
  intros Hi Hj Hij Heq.
  destruct (Z.lt_trichotomy i j) as [Hlt | [-> | Hgt]]; [| done |].
  - assert (0 <= i ∧ j < 300) as [Hlow Hhigh] by lia.
    pose proof (forall_pairs_spec _ keys_distinct i j Hlow Hlt Hhigh) as Hne.
    cbv beta in Hne. by rewrite Heq, String.eqb_refl in Hne.
  - assert (0 <= j ∧ i < 300 ∧ j < i) as (Hlow & Hhigh & Hlt) by lia.
    pose proof (forall_pairs_spec _ keys_distinct j i Hlow Hlt Hhigh) as Hne.
    cbv beta in Hne. by rewrite Heq, String.eqb_refl in Hne.
Qed.

(** Below 300 a key is two capital letters, and sorts before the key that
    every rank from 300 on gets. *)
Theorem generateSortString_two_capitals (index overflow : Z) :
  0 <= index < 300 → 300 <= overflow →
  String.length (generateSortString index) = 2%nat
  ∧ capitals (generateSortString index) = true
  ∧ js_lt (generateSortString index) (generateSortString overflow) = true.
Proof.
  intros Hindex Hoverflow. rewrite (generateSortString_high overflow) by done.
  pose proof keys_shape as Hall. rewrite forallb_forall in Hall.
  specialize (Hall index (proj1 (list_elem_of_In _ _) (ranks_spec index Hindex))).
  apply andb_true_iff in Hall as [[Hlen Hcap]%andb_true_iff Hlt].
  by apply Nat.eqb_eq in Hlen.
Qed.

End SortKeyOrderFacts.

(** ** The items, whichever schema they come from *)

Section ItemsFacts.
Import Js Async SortKey Completion.

Context {Position Range : Type}.
Variable newRange : Position → Position → Range.
Variable mapJupyterKind : gmap string CompletionItemKind.

Local Abbreviation completionItems :=
  (completionItems Position Range newRange mapJupyterKind).
Local Abbreviation experimental_item :=
  (experimental_item Position Range newRange mapJupyterKind).
Local Abbreviation match_item := (match_item Range).

(** What a [map] that does not raise produces: as many results as elements,
    and the result at [j] is one the callback gives for the index [j]. *)
Lemma map_from_Normal {A B} (f : A → Z → completion B) (P : Z → B → Prop)
    (xs : list A) (i : Z) (ys : list B) :
  map_from i f xs = Normal ys →
  (∀ x k y, f x k = Normal y → P k y) →
  length ys = length xs
  ∧ ∀ j y, ys !! j = Some y → P (i + Z.of_nat j) y.
Proof.
  intros Hmap Hf. revert i ys Hmap.
  induction xs as [| x xs IH]; intros i ys Hmap; simpl in Hmap.
  - injection Hmap as <-. split; [done |]. intros j y Hj.
    by rewrite lookup_nil in Hj.
  - destruct (f x i) as [y0 |] eqn:Hx; [| done]. simpl in Hmap.
    destruct (map_from (i + 1) f xs) as [rest |] eqn:Hrest; [| done].
    simpl in Hmap. injection Hmap as <-.
    destruct (IH _ _ Hrest) as [Hlen Hnth]. split; [simpl; by rewrite Hlen |].
    intros [| j] y Hj; simpl in Hj.
    + injection Hj as <-. rewrite Z.add_0_r. by apply (Hf x).
    + replace (i + Z.of_nat (S j)) with (i + 1 + Z.of_nat j) by lia.
      by apply Hnth.
Qed.

Lemma experimental_item_sortText (document : TextDocument Position) (item : value)
    (index : Z) (it : CompletionItem Range) :
  experimental_item document item index = Normal it →
  sortText it = generateSortString index.
Proof.
  unfold Completion.experimental_item.
  destruct item as [| b | n | s | items | props]; simpl; try done.
  destruct (props !! "text") as [[| | | text | |] |]; try done.
  destruct (props !! "start") as [[| | start | | |] |]; try done.
  destruct (props !! "end") as [[| | end_ | | |] |]; try done.
  by intros [= <-].
Qed.

(** [every] either tests each element for the three fields, or meets a
    [null] after elements that all have them, and raises. *)
Lemma every_item_is_valid_cases (items : list value) :
  every item_is_valid items = Normal (forallb has_start_end_text items)
  ∨ ∃ before after,
      items = (before ++ VNull :: after)%list
      ∧ forallb has_start_end_text before = true
      ∧ every item_is_valid items = TypeError.
Proof.
  induction items as [| item items IH]; [by left |].
  destruct (decide (is_null item = true)) as [Hnull | Hnull].
  - right. exists [], items. by destruct item.
  - simpl. rewrite item_is_valid_spec by (intros ->; by apply Hnull). simpl.
    destruct (has_start_end_text item) eqn:Hitem; [| by left].
    destruct IH as [IH | (before & after & -> & Hbefore & Hraise)]; [by left |].
    right. exists (item :: before), after. simpl. by rewrite Hitem.
Qed.

(** The test that guards the experimental branch, on an array: the other
    branch is taken, or the array is long enough and either every element has
    the three fields and the experimental branch is taken, or [every] raised. *)
Lemma guarded_every {B} (n : nat) (items : list value) (yes no : completion B) :
  let guarded :=
    if (n <=? length items)%nat
    then bind (every item_is_valid items) (λ all_valid, if all_valid then yes else no)
    else no in
  guarded = no
  ∨ ((n ≤ length items)%nat
     ∧ ((forallb has_start_end_text items = true ∧ guarded = yes)
        ∨ (∃ before after,
             items = (before ++ VNull :: after)%list
             ∧ forallb has_start_end_text before = true
             ∧ guarded = TypeError))).
Proof.
  simpl. destruct (Nat.leb_spec n (length items)) as [Hlen |]; [| by left].
  destruct (every_item_is_valid_cases items)
    as [Hevery | (before & after & Hitems & Hbefore & Hraise)].
  - rewrite Hevery. simpl.
    destruct (forallb has_start_end_text items) eqn:Hvalid; [| by left].
    right. split; [done |]. by left.
  - rewrite Hraise. simpl. right. split; [done |]. right. by exists before, after.
Qed.

(** The branch that [completionItems] takes: the items of [matches], or
    the experimental array (the empty one when the metadata is falsy), on
    which it either maps or raises. *)
Lemma completionItems_branches (document : TextDocument Position)
    (result : INotebookCompletion) :
  (completionItems document result = map_from 0 match_item (matches result))
  ∨ (∃ items,
       (length (matches result) ≤ length items)%nat
       ∧ (experimental_field result = Some (VArray items)
          ∨ (experimental_field result = None ∧ items = []))
       ∧ ((forallb has_start_end_text items = true
           ∧ completionItems document result
             = map_from 0 (experimental_item document) items)
          ∨ (∃ before after,
               items = (before ++ VNull :: after)%list
               ∧ forallb has_start_end_text before = true
               ∧ completionItems document result = TypeError))).
Proof.
  unfold Completion.completionItems. rewrite experimentMatches_spec. simpl.
  destruct (truthy (metadata result)) eqn:Htruthy.
  - destruct (experimental_field result) as [[| b | n | s | items | props] |] eqn:Hfield;
      try by left.
    destruct (guarded_every (length (matches result)) items
                (map_from 0 (experimental_item document) items)
                (map_from 0 match_item (matches result))) as [Hno | [Hlen Hcases]];
      simpl in *; [by left |].
    right. exists items. split; [done |]. split; [by left | done].
  - destruct (guarded_every (length (matches result)) []
                (map_from 0 (experimental_item document) [])
                (map_from 0 match_item (matches result))) as [Hno | [Hlen Hcases]];
      simpl in *; [by left |].
    right. exists []. split; [done |].
    split; [right; split; [by apply experimental_field_falsy | done] | done].
Qed.

(** Whatever the schema, the item at rank [j] gets the sort key of [j]. *)
Theorem completionItems_sortText (document : TextDocument Position)
    (result : INotebookCompletion) (items : list (CompletionItem Range)) :
  completionItems document result = Normal items →
  ∀ j it, items !! j = Some it → sortText it = generateSortString (Z.of_nat j).
Proof.
  intros Hrun j it Hj.
  destruct (completionItems_branches document result)
    as [Hmatches | (elems & _ & _ & [[_ Hexp] | (? & ? & _ & _ & Hraise)])].
  - rewrite Hmatches in Hrun.
    apply (map_from_Normal _ (λ k y, sortText y = generateSortString k)) in Hrun
      as [_ Hnth]; [by apply (Hnth j it) |].
    by intros x k y [= <-].
  - rewrite Hexp in Hrun.
    apply (map_from_Normal _ (λ k y, sortText y = generateSortString k)) in Hrun
      as [_ Hnth]; [by apply (Hnth j it) |].
    intros x k y. apply experimental_item_sortText.
  - congruence.
Qed.

(** The items are never fewer than the matches: there is one per match, or
    one per element of an experimental array that is at least as long. *)
Theorem completionItems_length (document : TextDocument Position)
    (result : INotebookCompletion) (items : list (CompletionItem Range)) :
  completionItems document result = Normal items →
  (length (matches result) ≤ length items)%nat
  ∧ (length items = length (matches result)
     ∨ ∃ elems, experimental_field result = Some (VArray elems)
                ∧ length items = length elems).
Proof.
  intros Hrun.
  destruct (completionItems_branches document result)
    as [Hmatches
       | (elems & Hlen & Hfield & [[_ Hexp] | (? & ? & _ & _ & Hraise)])].
  - rewrite Hmatches in Hrun.
    apply (map_from_Normal _ (λ _ _, True)) in Hrun as [Hitems _]; [| done].
    split; [lia | by left].
  - rewrite Hexp in Hrun.
    apply (map_from_Normal _ (λ _ _, True)) in Hrun as [Hitems _]; [| done].
    split; [lia |].
    destruct Hfield as [Hfield | [_ ->]]; [right; by exists elems |].
    left. simpl in *. lia.
  - congruence.
Qed.

(** Whenever [completionItems] does not raise, it does what the two schemas
    ask for: a valid experimental field gives one item per element, in
    order, with the element's text as label and the range of its offsets,
    and anything else gives the items of [matches], all of them and none of
    the others. *)
Lemma completionItems_unless_raised (document : TextDocument Position)
    (result : INotebookCompletion) :
  completionItems document result ≠ TypeError →
  if spec_valid_experimental result then
    ∃ items produced,
      experimental_field result = Some (VArray items)
      ∧ completionItems document result = Normal produced
      ∧ length produced = length items
      ∧ ∀ j item, items !! j = Some item →
          ∃ it, produced !! j = Some it
                ∧ spec_experimental_item Position Range newRange document j item it
  else completionItems document result
       = Normal (spec_match_items Range (matches result)).
Proof.
  unfold Completion.completionItems. rewrite experimentMatches_spec. simpl.
  unfold spec_valid_experimental. intros Hok.
  destruct (truthy (metadata result)) eqn:Htruthy.
  - destruct (experimental_field result) as [[| b | n | s | items | props] |];
      try apply map_from_match_item_0.
    destruct (Nat.leb_spec (length (matches result)) (length items)) as [Hlen | Hlen];
      simpl; [| apply map_from_match_item_0].
    destruct (every_item_is_valid_cases items)
      as [Hevery | (before & after & _ & _ & Hraise)].
    + rewrite Hevery. simpl.
      destruct (forallb has_start_end_text items) eqn:Hvalid;
        [| apply map_from_match_item_0].
      destruct (map_from_experimental_item newRange mapJupyterKind document items 0
                  Hvalid) as (produced & Hmap & Hplen & Hnth).
      exists items, produced. repeat split; try done.
      intros j item Hj. destruct (Hnth j item Hj) as (it & Hit & Hspec & _).
      by exists it.
    + rewrite Hraise in Hok. done.
  - rewrite experimental_field_falsy by done. simpl.
    destruct (length (matches result) <=? 0)%nat eqn:Hlen; simpl;
      [| apply map_from_match_item_0].
    apply Nat.leb_le in Hlen.
    destruct (matches result); [done | simpl in Hlen; lia].
Qed.

End ItemsFacts.

(** ** The race of the request, the cancellation and the timer *)

Section RaceFacts.
Import Js Async SortKey Completion.

(** A race against a promise that settles at [t] settles by [t]. *)
Lemma race_deadline {A} (p : promise A) (t : nat) (x : settled A) :
  ∃ t' outcome, race p (Some (t, x)) = Some (t', outcome) ∧ (t' ≤ t)%nat.
Proof.
  destruct p as [[t1 o1] |]; simpl; [| by exists t, x].
  destruct (Nat.leb_spec t1 t); [by exists t1, o1 | by exists t, x].
Qed.

(** A promise that has not settled by [t] loses the race against one that
    settles at [t]. *)
Lemma race_late {A} (p : promise A) (t : nat) (x : settled A) :
  settles_after t p → race p (Some (t, x)) = Some (t, x).
Proof.
  destruct p as [[t1 o1] |]; simpl; [| done].
  intros Hlate. destruct (Nat.leb_spec t1 t); [lia | done].
Qed.

Lemma race_settles_after {A} (p q : promise A) (t : nat) :
  settles_after t p → settles_after t q → settles_after t (race p q).
Proof.
  destruct p as [[t1 o1] |], q as [[t2 o2] |]; simpl; try done.
  by destruct (t1 <=? t2)%nat.
Qed.

Lemma and_then_settles_after {A B} (p : promise A) (f : A → settled B) (t : nat) :
  settles_after t p → settles_after t (and_then p f).
Proof. by destruct p as [[t1 [a |]] |]. Qed.

(** The promise of the cancellation is never rejected. *)
Lemma race_cancellation_rejected {A} (p : promise (option A))
    (token : option CancellationToken) (t : nat) :
  race p (createPromiseFromCancellation None token) = Some (t, Rejected) →
  p = Some (t, Rejected).
Proof.
  unfold createPromiseFromCancellation.
  destruct token as [[[c |]] |], p as [[t1 o1] |]; simpl; try done.
  by destruct (t1 <=? c)%nat.
Qed.

(** A request that settles no later than the cancellation wins the race. *)
Lemma completionRace_answered (session : IJupyterSession) (cellCode : string)
    (offsetInCode : Z) (token : option CancellationToken) (t : nat)
    (outcome : settled (option ICompleteReplyMsg)) :
  requestComplete session cellCode offsetInCode = Some (t, outcome) →
  (∀ tok c, token = Some tok → cancelledAt tok = Some c → (t ≤ c)%nat) →
  completionRace session cellCode offsetInCode token = Some (t, outcome).
Proof.
  intros Hrpc Hcancel. unfold completionRace, createPromiseFromCancellation.
  rewrite Hrpc. destruct token as [[[c |]] |]; simpl; try done.
  specialize (Hcancel _ c eq_refl eq_refl).
  destruct (Nat.leb_spec t c); [done | lia].
Qed.

(** The race settles after an instant by which the token is not cancelled
    and the request not answered. *)
Lemma completionRace_settles_after (session : IJupyterSession) (cellCode : string)
    (offsetInCode : Z) (token : CancellationToken) (t : nat) :
  isCancellationRequested token t = false →
  settles_after t (requestComplete session cellCode offsetInCode) →
  settles_after t (completionRace session cellCode offsetInCode (Some token)).
Proof.
  intros Hcancel Hrpc. apply race_settles_after; [done |].
  unfold createPromiseFromCancellation, isCancellationRequested in *.
  destruct (cancelledAt token) as [c |]; simpl; [| done].
  destruct (Nat.leb_spec c t); [done | lia].
Qed.

(** Cancelled before the request is answered, [getJupyterCompletion] is
    fulfilled at the instant of the cancellation with the empty result, the
    same it gives for a busy session; the request has been made. *)
Theorem getJupyterCompletion_cancelled (session : IJupyterSession)
    (cellCode : string) (offsetInCode : Z) (token : CancellationToken) (c : nat) :
  status session ≠ "busy" →
  cancelledAt token = Some c →
  settles_after c (requestComplete session cellCode offsetInCode) →
  getJupyterCompletion session cellCode offsetInCode (Some token)
  = ([RequestComplete cellCode offsetInCode],
     Some (c, Fulfilled {| matches := []; cursor_start := Some 0;
                           cursor_end := Some 0; metadata := Some (VObject ∅) |})).
Proof.
  intros Hbusy Hcancel Hafter. unfold getJupyterCompletion.
  destruct (String.eqb_spec (status session) "busy") as [| _]; [done |].
  by rewrite (completionRace_cancelled _ _ _ _ c).
Qed.

End RaceFacts.

(** ** The completion request, guard by guard *)

Section RequestFacts.
Import Js Async SortKey Completion.

Context {Position Range NotebookDocument : Type}.
Variable newRange : Position → Position → Range.
Variable findAssociatedNotebookDocument : string → option NotebookDocument.
Variable kernelProvider_get : NotebookDocument → option IKernel.
Variable mapJupyterKind : gmap string CompletionItemKind.
Variable timeout : nat.

Local Abbreviation completionItems :=
  (completionItems Position Range newRange mapJupyterKind).
Local Abbreviation provideCompletionItems :=
  (provideCompletionItems Position Range NotebookDocument newRange
     findAssociatedNotebookDocument kernelProvider_get mapJupyterKind timeout).
Local Abbreviation timeoutBranch := (timeoutBranch timeout).

Lemma timeoutBranch_spec (token : CancellationToken) :
  timeoutBranch token
  = Some (timeout, Fulfilled (if isCancellationRequested token timeout then None
                              else Some emptyResult)).
Proof. reflexivity. Qed.

(** With a notebook, a kernel and a session, [provideCompletionItems] is the
    race of [getJupyterCompletion] against the timer. *)
Lemma provideCompletionItems_live (document : TextDocument Position)
    (position : Position) (token : CancellationToken)
    (notebook : NotebookDocument) (kernel : IKernel)
    (kernel_session : IJupyterSession) :
  isNotebookCell document = true →
  findAssociatedNotebookDocument (uri document) = Some notebook →
  kernelProvider_get notebook = Some kernel →
  session kernel = Some kernel_session →
  provideCompletionItems document position token
  = (([FindAssociatedNotebookDocument (uri document); KernelProviderGet]
      ++ (getJupyterCompletion kernel_session (getText document)
            (offsetAt document position) (Some token)).1)%list,
     and_then
       (race (then_ (getJupyterCompletion kernel_session (getText document)
                       (offsetAt document position) (Some token)).2 Some)
             (timeoutBranch token))
       (λ result, match result with
                  | None => Fulfilled []
                  | Some result => of_completion (completionItems document result)
                  end)).
Proof.
  intros Hcell Hnb Hkernel Hsession. unfold Completion.provideCompletionItems.
  rewrite Hcell, Hnb, Hkernel, Hsession. simpl.
  by destruct (getJupyterCompletion _ _ _ _).
Qed.

(** For a notebook cell without a notebook, or whose notebook has no kernel
    or a kernel without a session, the answer is the empty list, at once:
    the kernel provider is not asked when there is no notebook, and no
    request is made of any kernel. *)
Theorem provideCompletionItems_missing_collaborator (document : TextDocument Position)
    (position : Position) (token : CancellationToken) :
  isNotebookCell document = true →
  (findAssociatedNotebookDocument (uri document) = None →
   provideCompletionItems document position token
   = ([FindAssociatedNotebookDocument (uri document)], resolved []))
  ∧ (∀ notebook,
       findAssociatedNotebookDocument (uri document) = Some notebook →
       kernelProvider_get notebook = None
       ∨ (∃ kernel, kernelProvider_get notebook = Some kernel
                    ∧ session kernel = None) →
       provideCompletionItems document position token
       = ([FindAssociatedNotebookDocument (uri document); KernelProviderGet],
          resolved [])).
Proof.
  intros Hcell. unfold Completion.provideCompletionItems. rewrite Hcell. simpl.
  split.
  - by intros ->.
  - intros notebook -> [-> | (kernel & -> & ->)]; done.
Qed.

(** With a busy session the answer is the empty list, at once, and the
    request is not made. *)
Theorem provideCompletionItems_busy (document : TextDocument Position)
    (position : Position) (token : CancellationToken)
    (notebook : NotebookDocument) (kernel : IKernel)
    (kernel_session : IJupyterSession) :
  isNotebookCell document = true →
  findAssociatedNotebookDocument (uri document) = Some notebook →
  kernelProvider_get notebook = Some kernel →
  session kernel = Some kernel_session →
  status kernel_session = "busy" →
  provideCompletionItems document position token
  = ([FindAssociatedNotebookDocument (uri document); KernelProviderGet],
     resolved []).
Proof.
  intros Hcell Hnb Hkernel Hsession Hbusy.
  rewrite (provideCompletionItems_live _ _ _ _ _ _ Hcell Hnb Hkernel Hsession).
  unfold getJupyterCompletion. rewrite Hbusy. reflexivity.
Qed.

(** The request is made only of the session of the kernel of the notebook
    of a notebook cell, when that session is not busy, with the text of the
    cell and the offset of the position; and it is made once at most. *)
Theorem provideCompletionItems_requests (document : TextDocument Position)
    (position : Position) (token : CancellationToken) (code : string)
    (cursor_pos : Z) :
  (RequestComplete code cursor_pos
     ∈ (provideCompletionItems document position token).1
   ↔ isNotebookCell document = true
     ∧ code = getText document
     ∧ cursor_pos = offsetAt document position
     ∧ ∃ notebook kernel kernel_session,
         findAssociatedNotebookDocument (uri document) = Some notebook
         ∧ kernelProvider_get notebook = Some kernel
         ∧ session kernel = Some kernel_session
         ∧ status kernel_session ≠ "busy")
  ∧ NoDup (provideCompletionItems document position token).1.
Proof.
  unfold Completion.provideCompletionItems.
  destruct (isNotebookCell document); simpl.
  2: { split; [| constructor]. split; [by intros ?%elem_of_nil | by intros [? _]]. }
  destruct (findAssociatedNotebookDocument (uri document)) as [notebook |].
  2: { split.
       - split; [| by intros (_ & _ & _ & ? & ? & ? & ? & _)].
         intros Hin. apply list_elem_of_singleton in Hin. done.
       - apply NoDup_singleton. }
  assert (NoDup [FindAssociatedNotebookDocument (uri document); KernelProviderGet])
    as Hnodup2.
  { apply NoDup_cons. split; [| apply NoDup_singleton].
    intros Hin. apply list_elem_of_singleton in Hin. done. }
  assert (RequestComplete code cursor_pos
            ∉ [FindAssociatedNotebookDocument (uri document); KernelProviderGet])
    as Hnot2.
  { intros Hin. apply elem_of_cons in Hin as [? | Hin]; [done |].
    apply list_elem_of_singleton in Hin. done. }
  destruct (kernelProvider_get notebook) as [kernel |] eqn:Hkernel; simpl.
  2: { split; [| done]. split; [done |].
       intros (_ & _ & _ & nb & k & s & [= <-] & Hk & _). congruence. }
  destruct (session kernel) as [kernel_session |] eqn:Hsession; simpl.
  2: { split; [| done]. split; [done |].
       intros (_ & _ & _ & nb & k & s & [= <-] & Hk & Hs & _).
       rewrite Hkernel in Hk. injection Hk as <-. congruence. }
  unfold getJupyterCompletion.
  destruct (String.eqb_spec (status kernel_session) "busy") as [Hbusy | Hbusy]; simpl.
  - split; [| done]. split; [done |].
    intros (_ & _ & _ & nb & k & s & [= <-] & Hk & Hs & Hidle).
    rewrite Hkernel in Hk. injection Hk as <-.
    rewrite Hsession in Hs. injection Hs as <-. done.
  - split.
    + split.
      * intros Hin. do 2 (apply elem_of_cons in Hin as [? | Hin]; [done |]).
        apply list_elem_of_singleton in Hin. injection Hin as -> ->.
        repeat split; try done. by exists notebook, kernel, kernel_session.
      * intros (_ & -> & -> & _). do 2 right. by left.
    + apply NoDup_cons. split.
      { intros Hin. apply elem_of_cons in Hin as [? | Hin]; [done |].
        apply list_elem_of_singleton in Hin. done. }
      apply NoDup_cons. split; [| apply NoDup_singleton].
      intros Hin. apply list_elem_of_singleton in Hin. done.
Qed.

(** [provideCompletionItems] always settles, and by the timeout at the
    latest, whatever the kernel does: answer, fail, or stay silent. *)
Theorem provideCompletionItems_deadline (document : TextDocument Position)
    (position : Position) (token : CancellationToken) :
  ∃ t outcome,
    (provideCompletionItems document position token).2 = Some (t, outcome)
    ∧ (t ≤ timeout)%nat.
Proof.
  unfold Completion.provideCompletionItems.
  destruct (isNotebookCell document); simpl;
    [| exists 0%nat, (Fulfilled []); split; [done | lia]].
  destruct (findAssociatedNotebookDocument (uri document)) as [notebook |];
    [| exists 0%nat, (Fulfilled []); split; [done | lia]].
  destruct (kernelProvider_get notebook) as [kernel |];
    [| exists 0%nat, (Fulfilled []); split; [done | lia]].
  destruct (session kernel) as [kernel_session |];
    [| exists 0%nat, (Fulfilled []); split; [done | lia]].
  destruct (getJupyterCompletion _ _ _ _) as [rpc_calls rpc]. simpl.
  rewrite timeoutBranch_spec.
  destruct (race_deadline (then_ rpc Some) timeout
              (Fulfilled (if isCancellationRequested token timeout then None
                          else Some emptyResult)))
    as (t & outcome & -> & Ht).
  destruct outcome as [result |]; simpl; eauto.
Qed.

(** The request is not answered by the timeout and the token not cancelled by
    then: the timer wins, and the answer is the empty list, at the timeout. *)
Theorem provideCompletionItems_timed_out (document : TextDocument Position)
    (position : Position) (token : CancellationToken)
    (notebook : NotebookDocument) (kernel : IKernel)
    (kernel_session : IJupyterSession) :
  isNotebookCell document = true →
  findAssociatedNotebookDocument (uri document) = Some notebook →
  kernelProvider_get notebook = Some kernel →
  session kernel = Some kernel_session →
  status kernel_session ≠ "busy" →
  isCancellationRequested token timeout = false →
  settles_after timeout
    (requestComplete kernel_session (getText document) (offsetAt document position)) →
  provideCompletionItems document position token
  = ([FindAssociatedNotebookDocument (uri document); KernelProviderGet;
      RequestComplete (getText document) (offsetAt document position)],
     Some (timeout, Fulfilled [])).
Proof.
  intros Hcell Hnb Hkernel Hsession Hbusy Hcancel Hlate.
  rewrite (provideCompletionItems_live _ _ _ _ _ _ Hcell Hnb Hkernel Hsession).
  unfold getJupyterCompletion.
  destruct (String.eqb_spec (status kernel_session) "busy") as [| _]; [done |].
  simpl. rewrite timeoutBranch_spec, Hcancel.
  rewrite race_late; [done |].
  unfold then_. do 2 apply and_then_settles_after.
  by apply completionRace_settles_after.
Qed.

(** The request settles first, by the timeout and no later than any
    cancellation: [provideCompletionItems] settles at that instant. If the
    request was answered, with the items of the normalised reply; if it was
    rejected, [provideCompletionItems] is rejected too. *)
Theorem provideCompletionItems_answered (document : TextDocument Position)
    (position : Position) (token : CancellationToken)
    (notebook : NotebookDocument) (kernel : IKernel)
    (kernel_session : IJupyterSession) (t : nat)
    (outcome : settled (option ICompleteReplyMsg)) :
  isNotebookCell document = true →
  findAssociatedNotebookDocument (uri document) = Some notebook →
  kernelProvider_get notebook = Some kernel →
  session kernel = Some kernel_session →
  status kernel_session ≠ "busy" →
  requestComplete kernel_session (getText document) (offsetAt document position)
  = Some (t, outcome) →
  (t ≤ timeout)%nat →
  (∀ c, cancelledAt token = Some c → (t ≤ c)%nat) →
  provideCompletionItems document position token
  = ([FindAssociatedNotebookDocument (uri document); KernelProviderGet;
      RequestComplete (getText document) (offsetAt document position)],
     Some (t, match outcome with
              | Fulfilled reply =>
                  of_completion (completionItems document (normalize reply))
              | Rejected => Rejected
              end)).
Proof.
  intros Hcell Hnb Hkernel Hsession Hbusy Hrpc Htimeout Hcancel.
  rewrite (provideCompletionItems_live _ _ _ _ _ _ Hcell Hnb Hkernel Hsession).
  unfold getJupyterCompletion.
  destruct (String.eqb_spec (status kernel_session) "busy") as [| _]; [done |].
  simpl. rewrite (completionRace_answered _ _ _ _ _ _ Hrpc).
  2: { intros tok c [= <-]. apply Hcancel. }
  rewrite timeoutBranch_spec. destruct outcome as [reply |]; simpl;
    by destruct (Nat.leb_spec t timeout); [| lia].
Qed.

End RequestFacts.

(** ** The map of the provider, event by event *)

Section TrackingFacts.
Import Async Registry Tracking.

(** *** The closures, on any key *)

Lemma removeNotebook_lookup (key k : string) (notebook : PromiseRef) (w : world) :
  notebooks (removeNotebook key notebook w) !! k
  = match notebooks w !! k with
    | Some q => if decide (q = notebook ∧ k = key) then None else Some q
    | None => None
    end.
Proof.
  rewrite removeNotebook_notebooks.
  destruct (decide (notebooks w !! key = Some notebook)) as [Hkey | Hkey].
  - destruct (decide (k = key)) as [-> | Hk].
    + rewrite lookup_delete_eq, Hkey. by rewrite decide_True.
    + rewrite lookup_delete_ne by done.
      destruct (notebooks w !! k) as [q |]; [| done].
      rewrite decide_False; [done | by intros [_ ?]].
  - destruct (notebooks w !! k) as [q |] eqn:Hq; [| done].
    rewrite decide_False; [done |]. intros [-> ->]. congruence.
Qed.

Lemma foldl_react_fulfilled (nb : INotebook) (p : PromiseRef)
    (rs : list (PromiseRef * string)) (w : world) :
  notebooks (foldl (λ w r, react r.2 p (Fulfilled nb) w) w rs) = notebooks w
  ∧ promises (foldl (λ w r, react r.2 p (Fulfilled nb) w) w rs) = promises w
  ∧ reactions (foldl (λ w r, react r.2 p (Fulfilled nb) w) w rs) = reactions w
  ∧ listeners (foldl (λ w r, react r.2 p (Fulfilled nb) w) w rs)
    = (listeners w ++ ((λ r, (session nb, (r.2, p))) <$> rs))%list.
Proof.
  revert w. induction rs as [| r rs IH]; intros w; cbn [foldl].
  - simpl. by rewrite app_nil_r.
  - destruct (IH (react r.2 p (Fulfilled nb) w)) as (-> & -> & -> & ->).
    simpl. by rewrite <- app_assoc.
Qed.

Lemma foldl_react_rejected (p : PromiseRef) (rs : list (PromiseRef * string))
    (w : world) :
  promises (foldl (λ w r, react r.2 p Rejected w) w rs) = promises w
  ∧ reactions (foldl (λ w r, react r.2 p Rejected w) w rs) = reactions w
  ∧ listeners (foldl (λ w r, react r.2 p Rejected w) w rs) = listeners w
  ∧ ∀ k, notebooks (foldl (λ w r, react r.2 p Rejected w) w rs) !! k
         = match notebooks w !! k with
           | Some q => if decide (q = p ∧ k ∈ rs.*2) then None else Some q
           | None => None
           end.
Proof.
  revert w. induction rs as [| r rs IH]; intros w; cbn [foldl].
  - repeat split; try done. intros k. destruct (notebooks w !! k) as [q |]; [| done].
    rewrite decide_False; [done |]. intros [_ Hin]. by apply elem_of_nil in Hin.
  - change (react r.2 p Rejected w) with (removeNotebook r.2 p w).
    destruct (IH (removeNotebook r.2 p w)) as (-> & -> & -> & Hlookup).
    destruct (removeNotebook_rest r.2 p w) as (_ & -> & -> & -> & _).
    repeat split; try done. intros k. rewrite Hlookup, removeNotebook_lookup.
    destruct (notebooks w !! k) as [q |]; [| done].
    destruct (decide (q = p ∧ k = r.2)) as [[-> ->] | Hne].
    + rewrite decide_True; [done |]. split; [done | by left].
    + destruct (decide (q = p ∧ k ∈ rs.*2)) as [[-> Hin] | Hrest].
      * rewrite decide_True; [done |]. split; [done | by right].
      * rewrite decide_False; [done |]. intros [-> Hin].
        apply elem_of_cons in Hin as [-> | Hin]; [by apply Hne | by apply Hrest].
Qed.

Lemma foldl_listeners (ls : list (SessionRef * (string * PromiseRef))) (w : world) :
  promises (foldl (λ w l, onDidDispose_listener l.2.1 l.2.2 w) w ls) = promises w
  ∧ reactions (foldl (λ w l, onDidDispose_listener l.2.1 l.2.2 w) w ls) = reactions w
  ∧ listeners (foldl (λ w l, onDidDispose_listener l.2.1 l.2.2 w) w ls) = listeners w
  ∧ ∀ k, notebooks (foldl (λ w l, onDidDispose_listener l.2.1 l.2.2 w) w ls) !! k
         = match notebooks w !! k with
           | Some q => if decide ((k, q) ∈ ls.*2) then None else Some q
           | None => None
           end.
Proof.
  revert w. induction ls as [| l ls IH]; intros w; cbn [foldl].
  - repeat split; try done. intros k. destruct (notebooks w !! k) as [q |]; [| done].
    rewrite decide_False; [done |]. intros Hin. by apply elem_of_nil in Hin.
  - rewrite onDidDispose_listener_removeNotebook.
    destruct (IH (removeNotebook l.2.1 l.2.2 w)) as (-> & -> & -> & Hlookup).
    destruct (removeNotebook_rest l.2.1 l.2.2 w) as (_ & -> & -> & -> & _).
    repeat split; try done. intros k. rewrite Hlookup, removeNotebook_lookup.
    destruct (notebooks w !! k) as [q |]; [| done].
    destruct l as [s [k' p']]. simpl.
    destruct (decide (q = p' ∧ k = k')) as [[-> ->] | Hne].
    + rewrite decide_True; [done | by left].
    + destruct (decide ((k, q) ∈ ls.*2)) as [Hin | Hrest].
      * rewrite decide_True; [done | by right].
      * rewrite decide_False; [done |]. intros Hin.
        apply elem_of_cons in Hin as [[= -> ->] | Hin]; [by apply Hne | done].
Qed.

(** *** Settling and signalling, on any key *)

Lemma settle_fulfilled_fields (p : PromiseRef) (nb : INotebook) (w : world) :
  promises w !! p = None →
  notebooks (settle p (Fulfilled nb) w) = notebooks w
  ∧ promises (settle p (Fulfilled nb) w) = <[p := Fulfilled nb]> (promises w)
  ∧ reactions (settle p (Fulfilled nb) w) = filter (λ r, r.1 ≠ p) (reactions w)
  ∧ listeners (settle p (Fulfilled nb) w)
    = (listeners w
       ++ ((λ r, (session nb, (r.2, p))) <$> filter (λ r, r.1 = p) (reactions w)))%list.
Proof.
  intros Hp. unfold settle. rewrite Hp.
  by destruct (foldl_react_fulfilled nb p (filter (λ r, r.1 = p) (reactions w))
                 {| notebooks := notebooks w; order := order w;
                 rawConnection := rawConnection w;
                    constructed := constructed w;
                    promises := <[p := Fulfilled nb]> (promises w);
                    reactions := filter (λ r, r.1 ≠ p) (reactions w);
                    listeners := listeners w; disposed := disposed w |})
    as (-> & -> & -> & ->).
Qed.

Lemma settle_rejected_fields (p : PromiseRef) (w : world) :
  promises w !! p = None →
  promises (settle p Rejected w) = <[p := Rejected]> (promises w)
  ∧ reactions (settle p Rejected w) = filter (λ r, r.1 ≠ p) (reactions w)
  ∧ listeners (settle p Rejected w) = listeners w
  ∧ ∀ k, notebooks (settle p Rejected w) !! k
         = match notebooks w !! k with
           | Some q => if decide (q = p ∧ (p, k) ∈ reactions w) then None else Some q
           | None => None
           end.
Proof.
  intros Hp. unfold settle. rewrite Hp.
  destruct (foldl_react_rejected p (filter (λ r, r.1 = p) (reactions w))
              {| notebooks := notebooks w; order := order w;
                 rawConnection := rawConnection w;
                 constructed := constructed w;
                 promises := <[p := Rejected]> (promises w);
                 reactions := filter (λ r, r.1 ≠ p) (reactions w);
                 listeners := listeners w; disposed := disposed w |})
    as (-> & -> & -> & Hlookup).
  repeat split; try done. intros k. rewrite Hlookup. simpl.
  destruct (notebooks w !! k) as [q |]; [| done].
  assert (k ∈ (filter (λ r, r.1 = p) (reactions w)).*2 ↔ (p, k) ∈ reactions w)
    as Hiff.
  { rewrite list_elem_of_fmap. split.
    - intros ([p' k'] & -> & [Hfst Hin]%list_elem_of_filter). simpl in *. by subst.
    - intros Hin. exists (p, k). split; [done |]. by apply list_elem_of_filter. }
  destruct (decide (q = p ∧ (p, k) ∈ reactions w)) as [[-> Hin] | Hne].
  - rewrite decide_True; [done |]. split; [done | by apply Hiff].
  - rewrite decide_False; [done |]. intros [-> Hin]. apply Hne.
    split; [done | by apply Hiff].
Qed.

Lemma sessionDisposed_fields (s : SessionRef) (w : world) :
  promises (sessionDisposed s w) = promises w
  ∧ reactions (sessionDisposed s w) = reactions w
  ∧ listeners (sessionDisposed s w) = listeners w
  ∧ ∀ k, notebooks (sessionDisposed s w) !! k
         = match notebooks w !! k with
           | Some q => if decide ((s, (k, q)) ∈ listeners w) then None else Some q
           | None => None
           end.
Proof.
  unfold sessionDisposed.
  destruct (foldl_listeners (filter (λ l, l.1 = s) (listeners w)) w)
    as (-> & -> & -> & Hlookup).
  repeat split; try done. intros k. rewrite Hlookup.
  destruct (notebooks w !! k) as [q |]; [| done].
  assert ((k, q) ∈ (filter (λ l, l.1 = s) (listeners w)).*2
          ↔ (s, (k, q)) ∈ listeners w) as Hiff.
  { rewrite list_elem_of_fmap. split.
    - intros ([s' kq] & -> & [Hfst Hin]%list_elem_of_filter). simpl in *. by subst.
    - intros Hin. exists (s, (k, q)). split; [done |]. by apply list_elem_of_filter. }
  destruct (decide ((s, (k, q)) ∈ listeners w)) as [Hin | Hne].
  - rewrite decide_True; [done | by apply Hiff].
  - rewrite decide_False; [done |]. intros Hin. by apply Hne, Hiff.
Qed.

(** *** What every provider keeps *)

Lemma tracking_unchanged (w w' : world) :
  notebooks w' = notebooks w → promises w' = promises w →
  reactions w' = reactions w → listeners w' = listeners w →
  tracked w ∧ listening w → tracked w' ∧ listening w'.
Proof.
  unfold tracked, listening. intros -> -> -> ->. done.
Qed.

Lemma setNotebook_tracking (key : string) (notebook : PromiseRef) (w : world) :
  tracked w ∧ listening w →
  tracked (setNotebook key notebook w) ∧ listening (setNotebook key notebook w).
Proof.
  intros [Htracked Hlistening]. unfold setNotebook.
  destruct (promises w !! notebook) as [[nb |] |] eqn:Hp.
  - (* fulfilled already: the listener is added at once *)
    split.
    + intros k p Hk. simpl in *.
      destruct (decide (k = key)) as [-> | Hne].
      * rewrite lookup_insert_eq in Hk. injection Hk as <-. rewrite Hp.
        apply elem_of_app. right. by left.
      * rewrite lookup_insert_ne in Hk by done.
        specialize (Htracked k p Hk).
        destruct (promises w !! p) as [[nb' |] |]; try done.
        apply elem_of_app. by left.
    + intros s k p Hin. simpl in *.
      apply elem_of_app in Hin as [Hin | Hin]; [by apply (Hlistening s k p) |].
      apply list_elem_of_singleton in Hin. injection Hin as -> -> ->.
      rewrite Hp. by destruct nb.
  - (* rejected already: the entry is removed at once *)
    unfold react. split.
    + intros k p Hk. rewrite removeNotebook_lookup in Hk. simpl in Hk.
      destruct (removeNotebook_rest key notebook
                  (map_set key notebook w)) as (_ & -> & -> & -> & _).
      simpl. destruct (decide (k = key)) as [-> | Hne].
      * rewrite lookup_insert_eq in Hk. by rewrite decide_True in Hk.
      * rewrite lookup_insert_ne in Hk by done.
        destruct (notebooks w !! k) as [q |] eqn:Hq; [| done].
        rewrite decide_False in Hk by (by intros [_ ?]). injection Hk as ->.
        by apply Htracked.
    + intros s k p Hin.
      destruct (removeNotebook_rest key notebook
                  (map_set key notebook w)) as (_ & Hpr & Hls & _).
      rewrite Hpr. rewrite Hls in Hin. by apply (Hlistening s k p).
  - (* pending: the reaction is attached *)
    split.
    + intros k p Hk. simpl in *.
      destruct (decide (k = key)) as [-> | Hne].
      * rewrite lookup_insert_eq in Hk. injection Hk as <-. rewrite Hp.
        apply elem_of_app. right. by left.
      * rewrite lookup_insert_ne in Hk by done.
        specialize (Htracked k p Hk).
        destruct (promises w !! p) as [[nb' |] |]; try done.
        apply elem_of_app. by left.
    + intros s k p Hin. simpl in *. by apply (Hlistening s k p).
Qed.

Lemma settle_tracking (p0 : PromiseRef) (outcome : settled INotebook) (w : world) :
  tracked w ∧ listening w →
  tracked (settle p0 outcome w) ∧ listening (settle p0 outcome w).
Proof.
  intros [Htracked Hlistening].
  destruct (promises w !! p0) as [old |] eqn:Hp0.
  { unfold settle. by rewrite Hp0. }
  assert (∀ k p, notebooks w !! k = Some p → p ≠ p0 →
            ∀ more,
              match <[p0 := outcome]> (promises w) !! p with
              | None => (p, k) ∈ filter (λ r, r.1 ≠ p0) (reactions w)
              | Some (Fulfilled nb) =>
                  (session nb, (k, p)) ∈ (listeners w ++ more)%list
              | Some Rejected => False
              end) as Hothers.
  { intros k p Hk Hne more. rewrite lookup_insert_ne by done.
    specialize (Htracked k p Hk).
    destruct (promises w !! p) as [[nb' |] |]; try done.
    - apply elem_of_app. by left.
    - by apply list_elem_of_filter. }
  assert (∀ s k p, (s, (k, p)) ∈ listeners w →
            <[p0 := outcome]> (promises w) !! p
            = Some (Fulfilled {| session := s |})) as Hold.
  { intros s k p Hin. specialize (Hlistening s k p Hin).
    rewrite lookup_insert_ne; [done | congruence]. }
  destruct outcome as [nb |].
  - destruct (settle_fulfilled_fields p0 nb w Hp0) as (Hnb & Hpr & Hrs & Hls).
    split.
    + intros k p Hk. rewrite Hnb in Hk. rewrite Hpr, Hrs, Hls.
      destruct (decide (p = p0)) as [-> | Hne]; [| by apply Hothers].
      rewrite lookup_insert_eq. apply elem_of_app. right.
      apply list_elem_of_fmap. exists (p0, k). split; [done |].
      apply list_elem_of_filter. split; [done |].
      specialize (Htracked k p0 Hk). by rewrite Hp0 in Htracked.
    + intros s k p Hin. rewrite Hpr. rewrite Hls in Hin.
      apply elem_of_app in Hin as [Hin | Hin]; [by apply (Hold s k p) |].
      apply list_elem_of_fmap in Hin as (r & [= -> -> ->] & _).
      rewrite lookup_insert_eq. by destruct nb.
  - destruct (settle_rejected_fields p0 w Hp0) as (Hpr & Hrs & Hls & Hnb).
    split.
    + intros k p Hk. rewrite Hnb in Hk. rewrite Hpr, Hrs, Hls.
      destruct (notebooks w !! k) as [q |] eqn:Hq; [| done].
      destruct (decide (q = p0 ∧ (p0, k) ∈ reactions w)) as [| Hne]; [done |].
      injection Hk as ->.
      destruct (decide (p = p0)) as [-> | Hpne].
      * exfalso. apply Hne. split; [done |].
        specialize (Htracked k p0 Hq). by rewrite Hp0 in Htracked.
      * specialize (Hothers k p Hq Hpne []). by rewrite app_nil_r in Hothers.
    + intros s k p Hin. rewrite Hpr. rewrite Hls in Hin. by apply (Hold s k p).
Qed.

Lemma sessionDisposed_tracking (s : SessionRef) (w : world) :
  tracked w ∧ listening w →
  tracked (sessionDisposed s w) ∧ listening (sessionDisposed s w).
Proof.
  intros [Htracked Hlistening].
  destruct (sessionDisposed_fields s w) as (Hpr & Hrs & Hls & Hnb).
  split.
  - intros k p Hk. rewrite Hnb in Hk. rewrite Hpr, Hrs, Hls.
    destruct (notebooks w !! k) as [q |] eqn:Hq; [| done].
    destruct (decide ((s, (k, q)) ∈ listeners w)); [done |].
    injection Hk as ->. by apply Htracked.
  - intros s' k p Hin. rewrite Hpr. rewrite Hls in Hin. by apply (Hlistening s' k p).
Qed.

Lemma dispose_sessions_tracking (nbs : list INotebook) (w : world) :
  tracked w ∧ listening w →
  tracked (dispose_sessions nbs w) ∧ listening (dispose_sessions nbs w).
Proof.
  unfold dispose_sessions. revert w.
  induction nbs as [| nb nbs IH]; intros w Hw; cbn [foldl]; [done |].
  apply IH. unfold session_dispose. apply sessionDisposed_tracking.
  by apply (tracking_unchanged w).
Qed.

Lemma dispose_resume_tracking (ps : list PromiseRef) (w : world) :
  tracked w ∧ listening w →
  tracked (dispose_resume ps w).2 ∧ listening (dispose_resume ps w).2.
Proof.
  intros Hw. unfold dispose_resume.
  destruct (all_settled ps w) as [[nbs |] |]; try done.
  by apply dispose_sessions_tracking.
Qed.

Lemma step_tracking (w : world) (e : event) :
  tracked w ∧ listening w → tracked (step w e) ∧ listening (step w e).
Proof.
  intros Hw. destruct e as [getOnly | | key | key notebook | p outcome | s | | ps];
    simpl.
  - apply (tracking_unchanged w); try done;
      unfold connect; by destruct getOnly, (rawConnection w).
  - apply (tracking_unchanged w); try done;
      unfold getConnection; by destruct (rawConnection w).
  - done.
  - by apply setNotebook_tracking.
  - by apply settle_tracking.
  - by apply sessionDisposed_tracking.
  - by apply dispose_resume_tracking.
  - by apply dispose_resume_tracking.
Qed.

Lemma run_tracking (es : list event) (w : world) :
  tracked w ∧ listening w → tracked (run es w) ∧ listening (run es w).
Proof.
  revert w. induction es as [| e es IH]; intros w Hw; [done |].
  simpl. by apply IH, step_tracking.
Qed.

Lemma initial_tracking : tracked initial ∧ listening initial.
Proof.
  split.
  - intros k p Hk. simpl in Hk. by rewrite lookup_empty in Hk.
  - intros s k p Hin. simpl in Hin. by apply elem_of_nil in Hin.
Qed.

(** *** Settlement and the map *)

(** Whatever has happened to a provider, when a pending promise is fulfilled
    the map stays as it is, and when it is rejected the entries that hold
    it go, under every key it was registered for, and no other entry. *)
Theorem settle_getNotebook (es : list event) (p : PromiseRef)
    (outcome : settled INotebook) (key : string) :
  promises (run es initial) !! p = None →
  getNotebook key (settle p outcome (run es initial))
  = match outcome with
    | Fulfilled _ => getNotebook key (run es initial)
    | Rejected =>
        if decide (getNotebook key (run es initial) = Some p) then None
        else getNotebook key (run es initial)
    end.
Proof.
  intros Hp.
  destruct (run_tracking es initial initial_tracking) as [Htracked _].
  set (w := run es initial) in *. unfold getNotebook.
  destruct outcome as [nb |].
  - by destruct (settle_fulfilled_fields p nb w Hp) as (-> & _).
  - destruct (settle_rejected_fields p w Hp) as (_ & _ & _ & ->).
    destruct (notebooks w !! key) as [q |] eqn:Hk; [| by case_decide].
    destruct (decide (q = p)) as [-> | Hne].
    + rewrite decide_True; [by rewrite decide_True |]. split; [done |].
      specialize (Htracked key p Hk). by rewrite Hp in Htracked.
    + rewrite decide_False by (by intros [? _]).
      rewrite decide_False; [done | congruence].
Qed.

(** [connect] without [getOnly] and [getConnection] are the same operation:
    they return the same connection and leave the provider in the same
    state. *)
Theorem connect_getConnection (w : world) :
  connect false w = (Some (getConnection w).1, (getConnection w).2).
Proof.
  unfold connect, getConnection.
  destruct (rawConnection w) as [c |] eqn:Hheld; simpl; [by rewrite Hheld | done].
Qed.

(** *** Disposal and the map *)

(** After the sessions of [nbs] were disposed of, an entry is gone when one
    of them had the listener of that entry, and is as it was otherwise. *)
Lemma dispose_sessions_lookup (nbs : list INotebook) (w : world) (k : string) :
  notebooks (dispose_sessions nbs w) !! k
  = match notebooks w !! k with
    | Some q =>
        if decide (Exists (λ nb, (session nb, (k, q)) ∈ listeners w) nbs)
        then None else Some q
    | None => None
    end.
Proof.
  unfold dispose_sessions. revert w.
  induction nbs as [| nb nbs IH]; intros w; cbn [foldl].
  - destruct (notebooks w !! k) as [q |]; [| done].
    rewrite decide_False; [done |]. by intros ?%Exists_nil.
  - rewrite IH. unfold session_dispose.
    destruct (sessionDisposed_fields (session nb)
                (session_dispose_called (session nb) w)) as (_ & _ & -> & ->).
    simpl. destruct (notebooks w !! k) as [q |]; [| done].
    destruct (decide ((session nb, (k, q)) ∈ listeners w)) as [Hin | Hout].
    + rewrite decide_True; [done |]. by left.
    + destruct (decide (Exists (λ nb, (session nb, (k, q)) ∈ listeners w) nbs))
        as [Hrest | Hrest].
      * rewrite decide_True; [done |]. by right.
      * rewrite decide_False; [done |].
        intros [? | ?]%Exists_cons; done.
Qed.

(** What [Promise.all] is fulfilled with. *)
Lemma all_settled_Fulfilled (ps : list PromiseRef) (nbs : list INotebook) (w : world) :
  all_settled ps w = Some (Fulfilled nbs)
  ↔ Forall2 (λ p nb, promises w !! p = Some (Fulfilled nb)) ps nbs.
Proof.
  split; [| apply all_settled_fulfilled].
  unfold all_settled. destruct (existsb (rejected w) ps); [done |].
  destruct (mapM _ ps) as [nbs' |] eqn:HmapM; [| done].
  intros [= <-]. apply mapM_Some in HmapM.
  eapply Forall2_impl; [exact HmapM |]. simpl. intros p nb Hp.
  by destruct (promises w !! p) as [[nb' |] |]; simplify_eq.
Qed.

(** When [dispose] has run, an entry is gone exactly when [dispose] got to
    disposing and one of the promises it waited for was fulfilled with a
    notebook on whose session the listener of that entry is. *)
Lemma dispose_resume_removes (ps : list PromiseRef) (w : world) (key : string)
    (p : PromiseRef) :
  notebooks w !! key = Some p →
  (notebooks (dispose_resume ps w).2 !! key = None
   ↔ (dispose_resume ps w).1 = Requested
     ∧ ∃ q nb, q ∈ ps ∧ promises w !! q = Some (Fulfilled nb)
               ∧ (session nb, (key, p)) ∈ listeners w).
Proof.
  intros Hk. unfold dispose_resume.
  destruct (all_settled ps w) as [[nbs |] |] eqn:Hall; simpl.
  - apply all_settled_Fulfilled in Hall.
    rewrite dispose_sessions_lookup, Hk.
    destruct (decide (Exists (λ nb, (session nb, (key, p)) ∈ listeners w) nbs))
      as [Hex | Hno].
    + split; [| done]. intros _. split; [done |].
      apply Exists_exists in Hex as (nb & Hnb & Hin).
      apply list_elem_of_lookup in Hnb as [i Hi].
      destruct (Forall2_lookup_r _ _ _ _ _ Hall Hi) as (q & Hq & Hpq).
      exists q, nb. split; [| done]. apply list_elem_of_lookup. eauto.
    + split; [done |]. intros (_ & q & nb & Hq & Hpq & Hin). exfalso.
      apply Hno, Exists_exists.
      apply list_elem_of_lookup in Hq as [i Hi].
      destruct (Forall2_lookup_l _ _ _ _ _ Hall Hi) as (nb' & Hnb' & Hpq').
      exists nb. split; [| done].
      assert (nb' = nb) as -> by congruence.
      apply list_elem_of_lookup. eauto.
  - rewrite Hk. split; [done | by intros [? _]].
  - rewrite Hk. split; [done | by intros [? _]].
Qed.

(** An entry that is in the map before a step and gone after it was removed
    by a handler that [setNotebook] installed. *)
Lemma step_removes (w : world) (e : event) (key : string) (p : PromiseRef) :
  notebooks w !! key = Some p →
  notebooks (step w e) !! key = None →
  (∃ s, (s, (key, p)) ∈ listeners w
        ∧ (e = SessionDisposed s ∨ e = Dispose ∨ ∃ ps, e = DisposeResume ps))
  ∨ (e = Settle p Rejected ∧ (p, key) ∈ reactions w)
  ∨ (∃ p', e = SetNotebook key p' ∧ rejected w p' = true).
Proof.
  intros Hk Hgone.
  destruct e as [getOnly | | k | k notebook | p0 outcome | s | | ps]; simpl in Hgone.
  - rewrite connect_notebooks in Hgone. congruence.
  - rewrite getConnection_notebooks in Hgone. congruence.
  - congruence.
  - right. right. unfold setNotebook, rejected in *.
    destruct (promises w !! notebook) as [[nb |] |] eqn:Hp; simpl in Hgone.
    + apply lookup_insert_None in Hgone as [? _]. congruence.
    + destruct (decide (k = key)) as [-> | Hkk];
        [exists notebook; by rewrite Hp |].
      rewrite removeNotebook_lookup in Hgone. simpl in Hgone.
      rewrite lookup_insert_ne, Hk in Hgone by done.
      rewrite decide_False in Hgone; [done | by intros [_ ?]].
    + apply lookup_insert_None in Hgone as [? _]. congruence.
  - right. left. unfold settle in Hgone.
    destruct (promises w !! p0) eqn:Hp0; [congruence |].
    apply (reactions_removes _ _ p) in Hgone as (-> & -> & r & Hr & Hkey);
      [| done].
    split; [done |]. apply list_elem_of_filter in Hr as [Hfst Hr].
    destruct r as [q k']. simpl in *. by subst.
  - left. exists s. split; [| by left]. unfold sessionDisposed in Hgone.
    apply (listeners_removes _ p) in Hgone as (l & Hl & Hkey); [| done].
    apply list_elem_of_filter in Hl as [Hs Hl].
    destruct l as [s' kp]. simpl in *. by subst.
  - left. apply (dispose_resume_removes _ _ _ _ Hk) in Hgone
      as (_ & q & nb & _ & _ & Hin).
    exists (session nb). split; [done |]. right. by left.
  - left. apply (dispose_resume_removes _ _ _ _ Hk) in Hgone
      as (_ & q & nb & _ & _ & Hin).
    exists (session nb). split; [done |]. right. right. by exists ps.
Qed.

(** C10, as the code has it: [dispose] has no deletion of its own, but the
    sessions it disposes of signal their disposal, and the listeners that
    [setNotebook] installed on them then remove their entries. While
    [dispose] waits, and when it is rejected, nothing changes. When it has
    disposed of the sessions, no entry was added or changed, and an entry is
    gone exactly when its listener is on the session of a notebook that one
    of the awaited promises was fulfilled with; every other key still maps
    to its promise. In any step, an entry that goes was removed by a handler
    that [setNotebook] installed: the disposal listener of its registration
    (on a signal of the session, or on its disposal by [dispose]), the
    rejection handler of its registration, or the rejection handler of a
    registration that had just replaced it. *)
Theorem dispose_removes_by_listeners (ps : list PromiseRef) (w : world) :
  ((dispose_resume ps w).1 ≠ Requested → (dispose_resume ps w).2 = w)
  ∧ (∀ key p, notebooks (dispose_resume ps w).2 !! key = Some p →
              notebooks w !! key = Some p)
  ∧ (∀ key p, notebooks w !! key = Some p →
       (notebooks (dispose_resume ps w).2 !! key = None
        ↔ (dispose_resume ps w).1 = Requested
          ∧ ∃ q nb, q ∈ ps ∧ promises w !! q = Some (Fulfilled nb)
                    ∧ (session nb, (key, p)) ∈ listeners w))
  ∧ ∀ e key p,
      notebooks w !! key = Some p →
      notebooks (step w e) !! key = None →
      (∃ s, (s, (key, p)) ∈ listeners w
            ∧ (e = SessionDisposed s ∨ e = Dispose ∨ ∃ ps, e = DisposeResume ps))
      ∨ (e = Settle p Rejected ∧ (p, key) ∈ reactions w)
      ∨ (∃ p', e = SetNotebook key p' ∧ rejected w p' = true).
Proof.
  split; [| split; [| split]].
  - unfold dispose_resume. by destruct (all_settled ps w) as [[nbs |] |].
  - intros key p. unfold dispose_resume.
    destruct (all_settled ps w) as [[nbs |] |]; simpl; try done.
    rewrite dispose_sessions_lookup.
    destruct (notebooks w !! key) as [q |]; [| done]. by case_decide.
  - intros key p. apply dispose_resume_removes.
  - intros e key p. apply step_removes.
Qed.

End TrackingFacts.

(** ** Examples of the further properties *)

Section FurtherExamples.
Import Js Async SortKey SortKeyOrder Completion Registry Tracking Samples MoreSamples.

Local Abbreviation provide find kernels :=
  (provideCompletionItems Z (Z * Z) nat pair find kernels sample_kinds 5).

Lemma generateSortString_order_witness :
  0 <= 30 ∧ 30 < 50 ∧ 50 < 300
  ∧ js_lt (generateSortString 50) (generateSortString 30) = true
  ∧ js_lt (generateSortString 25) (generateSortString 50) = true.
Proof.
  assert (0 <= 30 ∧ 30 < 50 ∧ 50 < 300 ∧ 0 <= 25 ∧ 25 < 50)
    as (H0 & H1 & H2 & H3 & H4) by lia.
  split; [exact H0 |]. split; [exact H1 |]. split; [exact H2 |]. split.
  - apply (generateSortString_order 30 50 H0 H1 H2). repeat split; lia.
  - apply (generateSortString_order 25 50 H3 H4 H2). lia.
Defined.

Lemma generateSortString_injective_witness :
  0 <= 49 < 300 ∧ 0 <= 50 < 300 ∧ 49 ≠ 50
  ∧ generateSortString 49 ≠ generateSortString 50.
Proof.
  assert (0 <= 49 < 300 ∧ 0 <= 50 < 300 ∧ 49 ≠ 50) as (H0 & H1 & H2) by lia.
  split; [exact H0 |]. split; [exact H1 |]. split; [exact H2 |].
  exact (generateSortString_injective 49 50 H0 H1 H2).
Defined.

Lemma generateSortString_two_capitals_witness :
  0 <= 299 < 300 ∧ 300 <= 1000
  ∧ String.length (generateSortString 299) = 2%nat
  ∧ capitals (generateSortString 299) = true
  ∧ js_lt (generateSortString 299) (generateSortString 1000) = true.
Proof.
  assert (0 <= 299 < 300 ∧ 300 <= 1000) as [H0 H1] by lia.
  split; [exact H0 |]. split; [exact H1 |].
  exact (generateSortString_two_capitals 299 1000 H0 H1).
Defined.

Lemma completionItems_sortText_witness :
  completionItems Z (Z * Z) pair sample_kinds (offsets_document true "ab") two_records
  = Normal [ {| label := "abcd"; range := Some (2, 4); kind := Some 2;
                sortText := "AA" |};
             {| label := "abce"; range := Some (2, 4); kind := None;
                sortText := "AB" |} ]
  ∧ "AB" = generateSortString (Z.of_nat 1).
Proof.
  assert (completionItems Z (Z * Z) pair sample_kinds (offsets_document true "ab")
            two_records
          = Normal [ {| label := "abcd"; range := Some (2, 4); kind := Some 2;
                        sortText := "AA" |};
                     {| label := "abce"; range := Some (2, 4); kind := None;
                        sortText := "AB" |} ]) as Hrun
    by (vm_compute; reflexivity).
  split; [exact Hrun |].
  exact (completionItems_sortText pair sample_kinds (offsets_document true "ab")
           two_records _ Hrun 1%nat
           {| label := "abce"; range := Some (2, 4); kind := None;
              sortText := "AB" |} eq_refl).
Defined.

Lemma completionItems_length_witness :
  (length (matches two_records) ≤ 2)%nat
  ∧ (2%nat = length (matches two_records)
     ∨ ∃ elems, experimental_field two_records = Some (VArray elems)
                ∧ 2%nat = length elems).
Proof.
  apply (completionItems_length pair sample_kinds (offsets_document true "ab")
           two_records
           [ {| label := "abcd"; range := Some (2, 4); kind := Some 2;
                sortText := "AA" |};
             {| label := "abce"; range := Some (2, 4); kind := None;
                sortText := "AB" |} ]).
  vm_compute. reflexivity.
Defined.

Lemma getJupyterCompletion_cancelled_witness :
  status (sample_session "idle" (Some 3%nat) (Some os_environ_reply)) ≠ "busy"
  ∧ getJupyterCompletion (sample_session "idle" (Some 3%nat) (Some os_environ_reply))
      "os.env" 6 (Some {| cancelledAt := Some 1%nat |})
    = ([RequestComplete "os.env" 6],
       Some (1%nat, Fulfilled {| matches := []; cursor_start := Some 0;
                                 cursor_end := Some 0;
                                 metadata := Some (VObject ∅) |})).
Proof.
  assert (status (sample_session "idle" (Some 3%nat) (Some os_environ_reply))
          ≠ "busy") as Hidle by discriminate.
  split; [exact Hidle |].
  apply getJupyterCompletion_cancelled; [exact Hidle | reflexivity |].
  simpl. lia.
Defined.

Lemma provideCompletionItems_missing_collaborator_witness :
  isNotebookCell stray_document = true
  ∧ provide one_notebook
      (kernel_of (sample_session "idle" (Some 2%nat) (Some os_environ_reply)))
      stray_document 6 {| cancelledAt := None |}
    = ([FindAssociatedNotebookDocument "cell:2"], resolved [])
  ∧ provide one_notebook no_kernel (offsets_document true "os.env") 6
      {| cancelledAt := None |}
    = ([FindAssociatedNotebookDocument "cell:1"; KernelProviderGet], resolved [])
  ∧ provide one_notebook no_session (offsets_document true "os.env") 6
      {| cancelledAt := None |}
    = ([FindAssociatedNotebookDocument "cell:1"; KernelProviderGet], resolved []).
Proof.
  split; [reflexivity |]. split; [| split].
  - apply (proj1 (provideCompletionItems_missing_collaborator pair one_notebook
                    (kernel_of (sample_session "idle" (Some 2%nat)
                                  (Some os_environ_reply)))
                    sample_kinds 5 stray_document 6 {| cancelledAt := None |}
                    eq_refl)).
    reflexivity.
  - apply (proj2 (provideCompletionItems_missing_collaborator pair one_notebook
                    no_kernel sample_kinds 5 (offsets_document true "os.env") 6
                    {| cancelledAt := None |} eq_refl) 0%nat).
    + reflexivity.
    + by left.
  - apply (proj2 (provideCompletionItems_missing_collaborator pair one_notebook
                    no_session sample_kinds 5 (offsets_document true "os.env") 6
                    {| cancelledAt := None |} eq_refl) 0%nat).
    + reflexivity.
    + right. by exists {| Completion.session := None |}.
Defined.

Lemma provideCompletionItems_busy_witness :
  status (sample_session "busy" (Some 2%nat) (Some os_environ_reply)) = "busy"
  ∧ provide one_notebook
      (kernel_of (sample_session "busy" (Some 2%nat) (Some os_environ_reply)))
      (offsets_document true "os.env") 6 {| cancelledAt := None |}
    = ([FindAssociatedNotebookDocument "cell:1"; KernelProviderGet], resolved []).
Proof.
  split; [reflexivity |].
  by apply (provideCompletionItems_busy pair one_notebook
              (kernel_of (sample_session "busy" (Some 2%nat) (Some os_environ_reply)))
              sample_kinds 5 (offsets_document true "os.env") 6
              {| cancelledAt := None |} 0%nat
              {| Completion.session := Some (sample_session "busy" (Some 2%nat)
                                    (Some os_environ_reply)) |}
              (sample_session "busy" (Some 2%nat) (Some os_environ_reply))).
Defined.

Lemma provideCompletionItems_timed_out_witness :
  isCancellationRequested {| cancelledAt := Some 9%nat |} 5 = false
  ∧ provide one_notebook
      (kernel_of (sample_session "idle" (Some 7%nat) (Some os_environ_reply)))
      (offsets_document true "os.env") 6 {| cancelledAt := Some 9%nat |}
    = ([FindAssociatedNotebookDocument "cell:1"; KernelProviderGet;
        RequestComplete "os.env" 6],
       Some (5%nat, Fulfilled [])).
Proof.
  split; [reflexivity |].
  apply (provideCompletionItems_timed_out pair one_notebook
           (kernel_of (sample_session "idle" (Some 7%nat) (Some os_environ_reply)))
           sample_kinds 5 (offsets_document true "os.env") 6
           {| cancelledAt := Some 9%nat |} 0%nat
           {| Completion.session := Some (sample_session "idle" (Some 7%nat)
                                 (Some os_environ_reply)) |}
           (sample_session "idle" (Some 7%nat) (Some os_environ_reply)));
    try reflexivity.
  - discriminate.
  - simpl. lia.
Defined.

Lemma provideCompletionItems_answered_witness :
  provide one_notebook (kernel_of (failing_session 2))
    (offsets_document true "os.env") 6 {| cancelledAt := Some 4%nat |}
  = ([FindAssociatedNotebookDocument "cell:1"; KernelProviderGet;
      RequestComplete "os.env" 6],
     Some (2%nat, Rejected)).
Proof.
  apply (provideCompletionItems_answered pair one_notebook
           (kernel_of (failing_session 2)) sample_kinds 5
           (offsets_document true "os.env") 6 {| cancelledAt := Some 4%nat |}
           0%nat {| Completion.session := Some (failing_session 2) |} (failing_session 2)
           2%nat Rejected);
    try reflexivity.
  - discriminate.
  - lia.
  - intros c [= <-]. lia.
Defined.

(** The same session answers in time: the items are those of its reply. *)
Example provideCompletionItems_answered_in_time :
  provide one_notebook
    (kernel_of (sample_session "idle" (Some 2%nat) (Some os_environ_reply)))
    (offsets_document true "os.env") 6 {| cancelledAt := Some 4%nat |}
  = ([FindAssociatedNotebookDocument "cell:1"; KernelProviderGet;
      RequestComplete "os.env" 6],
     Some (2%nat, Fulfilled [ {| label := "os.environ"; range := None;
                                 kind := None; sortText := "AA" |} ])).
Proof. vm_compute. reflexivity. Qed.

Lemma settle_getNotebook_witness :
  promises (run in_flight_events initial) !! 2%nat = None
  ∧ getNotebook "docB" (settle 2%nat Rejected (run in_flight_events initial)) = None
  ∧ getNotebook "docA" (settle 2%nat Rejected (run in_flight_events initial))
    = Some 1%nat.
Proof.
  assert (promises (run in_flight_events initial) !! 2%nat = None) as Hpending
    by (vm_compute; reflexivity).
  split; [exact Hpending |]. split.
  - rewrite (settle_getNotebook in_flight_events 2%nat Rejected "docB" Hpending).
    vm_compute. reflexivity.
  - rewrite (settle_getNotebook in_flight_events 2%nat Rejected "docA" Hpending).
    vm_compute. reflexivity.
Defined.

(** C10 at a provider with one notebook that has been created: [dispose]
    disposes of its session, the session signals its disposal, and after
    [dispose] the key that was registered maps to nothing, where the sentence
    would have it still map to its promise. *)
Lemma dispose_empties_the_map :
  getNotebook "docA" (run created_events initial) = Some 1%nat
  ∧ (dispose (run created_events initial)).1 = Requested
  ∧ disposed (dispose (run created_events initial)).2 = [7%nat]
  ∧ getNotebook "docA" (dispose (run created_events initial)).2 = None.
Proof. repeat split; vm_compute; reflexivity. Qed.

Lemma dispose_removes_by_listeners_witness :
  notebooks (run created_events initial) !! "docA" = Some 1%nat
  ∧ notebooks (dispose_resume [1%nat] (run created_events initial)).2 !! "docA"
    = None
  ∧ notebooks (dispose_resume [1%nat] (run in_flight_events initial)).2 !! "docB"
    = Some 2%nat.
Proof.
  assert (notebooks (run created_events initial) !! "docA" = Some 1%nat) as Hheld
    by (vm_compute; reflexivity).
  split; [exact Hheld |].
  destruct (dispose_removes_by_listeners [1%nat] (run created_events initial))
    as (_ & _ & Hgone & _).
  split.
  - apply (Hgone "docA" 1%nat Hheld). split; [vm_compute; reflexivity |].
    exists 1%nat, {| session := 7%nat |}.
    split; [by left |]. split; [vm_compute; reflexivity |].
    assert (listeners (run created_events initial) = [(7%nat, ("docA", 1%nat))])
      as -> by (vm_compute; reflexivity).
    by left.
  - vm_compute. reflexivity.
Defined.

End FurtherExamples.

(** ** The reply of the kernel, whatever its shape *)

Section WireFacts.
Import Js Async Wire.

(** A request that settles no later than the cancellation wins the race
    against it. *)
Lemma race_answered {A} (p : promise (option A)) (token : option CancellationToken)
    (t : nat) (outcome : settled (option A)) :
  p = Some (t, outcome) →
  (∀ tok c, token = Some tok → cancelledAt tok = Some c → (t ≤ c)%nat) →
  race p (createPromiseFromCancellation None token) = Some (t, outcome).
Proof.
  intros -> Hcancel. unfold createPromiseFromCancellation.
  destruct token as [[[c |]] |]; simpl; try done.
  specialize (Hcancel _ c eq_refl eq_refl).
  destruct (Nat.leb_spec t c); [done | lia].
Qed.

(** The race is won by the cancellation, with no result, or by the request. *)
Lemma race_cancellation_cases {A} (p : promise (option A))
    (token : option CancellationToken) :
  (∃ c, race p (createPromiseFromCancellation None token)
        = Some (c, Fulfilled None))
  ∨ race p (createPromiseFromCancellation None token) = None
  ∨ ∃ t outcome,
      p = Some (t, outcome)
      ∧ race p (createPromiseFromCancellation None token) = Some (t, outcome)
      ∧ ∀ tok c, token = Some tok → cancelledAt tok = Some c → (t ≤ c)%nat.
Proof.
  unfold createPromiseFromCancellation.
  destruct token as [[[c |]] |], p as [[t outcome] |]; simpl;
    try (by right; left); try (by left; exists c).
  - destruct (Nat.leb_spec t c); [| by left; exists c].
    right. right. exists t, outcome. repeat split; try done.
    by intros tok c' [= <-] [= <-].
  - right. right. exists t, outcome. repeat split; try done.
    by intros tok c' [= <-] [=].
  - right. right. exists t, outcome. repeat split; try done.
Qed.

(** What [normalize] makes of each shape of reply. *)
Lemma normalize_primitive (result : option ICompleteReplyMsg) :
  primitive_content result = true → normalize result = TypeError.
Proof.
  destruct result as [[[[| b | n | s | items | props] |]] |]; try done; simpl.
  - by intros ->.
  - by intros ->.
  - by intros ->.
Qed.

Lemma normalize_has_matches (props : gmap string value) (ms : value) :
  props !! "matches" = Some ms →
  normalize (Some {| content := Some (VObject props) |})
  = Normal {| matches := Some ms; cursor_start := props !! "cursor_start";
              cursor_end := props !! "cursor_end";
              metadata := props !! "metadata" |}.
Proof. intros Hms. simpl. by rewrite Hms. Qed.

Lemma normalize_no_matches (result : option ICompleteReplyMsg) :
  primitive_content result = false → content_has_matches result = false →
  normalize result = Normal emptyResult.
Proof.
  destruct result as [[[[| b | n | s | items | props] |]] |]; try done; simpl.
  - by intros ->.
  - by intros ->.
  - by intros ->.
  - intros _. by destruct (props !! "matches").
Qed.

(** Whatever the reply, a result has a value for [matches]. *)
Lemma normalize_matches (result : option ICompleteReplyMsg)
    (completion : INotebookCompletion) :
  normalize result = Normal completion → is_Some (matches completion).
Proof.
  destruct (primitive_content result) eqn:Hprimitive.
  { by rewrite normalize_primitive. }
  destruct (content_has_matches result) eqn:Hhas.
  - destruct result as [[[[| b | n | s | items | props] |]] |]; try done.
    simpl in Hhas. destruct (props !! "matches") as [ms |] eqn:Hms; [| done].
    rewrite (normalize_has_matches _ _ Hms). by intros [= <-].
  - rewrite normalize_no_matches by done. by intros [= <-].
Qed.

(** On a reply of the declared type, [normalize] is the normalisation of
    the typed reading of [getJupyterCompletion]. *)
Lemma normalize_wire (reply : option Completion.ICompleteReplyMsg) :
  normalize (wire_reply <$> reply)
  = Normal (wire_result (Completion.normalize reply)).
Proof.
  destruct reply as [[[[ms cs ce md | state] |]] |]; try done.
  unfold wire_reply, wire_content. cbn [fmap option_fmap option_map
    Completion.content].
  rewrite (normalize_has_matches _ (VArray (VString <$> ms))).
  - destruct cs, ce, md; reflexivity.
  - destruct cs, ce, md; reflexivity.
Qed.

Lemma race_then {A B} (p q : promise A) (f : A → B) :
  race (then_ p f) (then_ q f) = then_ (race p q) f.
Proof.
  destruct p as [[t1 [a |]] |], q as [[t2 [b |]] |]; simpl; try done;
    by destruct (t1 <=? t2)%nat.
Qed.

(** With a session that answers with replies of the declared type,
    [getJupyterCompletion] on any JSON is its typed reading. *)
Lemma getJupyterCompletion_wire (session : Completion.IJupyterSession)
    (cellCode : string) (offsetInCode : Z) (cancelToken : option CancellationToken) :
  getJupyterCompletion (wire_session session) cellCode offsetInCode cancelToken
  = ((Completion.getJupyterCompletion session cellCode offsetInCode cancelToken).1,
     then_ (Completion.getJupyterCompletion session cellCode offsetInCode
              cancelToken).2 wire_result).
Proof.
  unfold getJupyterCompletion, Completion.getJupyterCompletion,
    Completion.completionRace. simpl.
  destruct (String.eqb (Completion.status session) "busy"); [done |]. simpl.
  f_equal.
  assert (createPromiseFromCancellation None cancelToken
          = then_ (createPromiseFromCancellation None cancelToken)
              (fmap wire_reply)) as ->.
  { unfold createPromiseFromCancellation. by destruct cancelToken as [[[c |]] |]. }
  rewrite race_then.
  destruct (race _ _) as [[t [reply |]] |]; simpl; try done.
  by rewrite normalize_wire.
Qed.

(** C8, as the code has it: with a busy session [getJupyterCompletion] gives
    the empty result at once and does not call [requestComplete]. Otherwise
    it calls it once, and when the request is answered, no later than any
    cancellation, with a reply whose content is not a truthy value other than
    an object, it is fulfilled at that instant, with a result that has a
    value for [matches]: the [matches], [cursor_start], [cursor_end] and
    [metadata] of a content that has [matches], as they are, and the empty
    result for any other such reply (none, no content, a falsy content, an
    array, an object without [matches]). *)
Theorem getJupyterCompletion_reply_shapes (session : IJupyterSession)
    (cellCode : string) (offsetInCode : Z) (cancelToken : option CancellationToken) :
  (status session = "busy" →
     getJupyterCompletion session cellCode offsetInCode cancelToken
     = ([], resolved {| matches := Some (VArray []);
                        cursor_start := Some (VNumber 0);
                        cursor_end := Some (VNumber 0);
                        metadata := Some (VObject ∅) |}))
  ∧ (status session ≠ "busy" →
     ∀ t reply,
       requestComplete session cellCode offsetInCode = Some (t, Fulfilled reply) →
       (∀ tok c, cancelToken = Some tok → cancelledAt tok = Some c → (t ≤ c)%nat) →
       primitive_content reply = false →
       ∃ result,
         getJupyterCompletion session cellCode offsetInCode cancelToken
         = ([Completion.RequestComplete cellCode offsetInCode],
            Some (t, Fulfilled result))
         ∧ is_Some (matches result)
         ∧ (∀ props ms,
              reply = Some {| content := Some (VObject props) |} →
              props !! "matches" = Some ms →
              result = {| matches := Some ms;
                          cursor_start := props !! "cursor_start";
                          cursor_end := props !! "cursor_end";
                          metadata := props !! "metadata" |})
         ∧ (content_has_matches reply = false →
            result = {| matches := Some (VArray []);
                        cursor_start := Some (VNumber 0);
                        cursor_end := Some (VNumber 0);
                        metadata := Some (VObject ∅) |})).
Proof.
  unfold getJupyterCompletion. split.
  - intros ->. reflexivity.
  - intros Hbusy t reply Hrpc Hcancel Hshape.
    destruct (String.eqb_spec (status session) "busy") as [| _]; [done |].
    rewrite (race_answered _ _ _ _ Hrpc Hcancel). simpl.
    destruct (normalize reply) as [result |] eqn:Hnormalize.
    + exists result. split; [done |]. split; [by eapply normalize_matches |].
      split.
      * intros props ms -> Hms. rewrite (normalize_has_matches _ _ Hms) in Hnormalize.
        congruence.
      * intros Hnone. rewrite normalize_no_matches in Hnormalize by done.
        by injection Hnormalize as <-.
    + destruct (content_has_matches reply) eqn:Hhas.
      * destruct reply as [[[[| b | n | s | items | props] |]] |]; try done.
        simpl in Hhas. destruct (props !! "matches") as [ms |] eqn:Hms; [| done].
        by rewrite (normalize_has_matches _ _ Hms) in Hnormalize.
      * by rewrite normalize_no_matches in Hnormalize.
Qed.

(** [getJupyterCompletion] is rejected exactly when the session is not busy
    and the request settles, no later than any cancellation, in one of two
    ways: it is rejected, or it is answered with a reply whose content is a
    truthy value that is not an object, on which [in] raises. *)
Theorem getJupyterCompletion_rejected_iff (session : IJupyterSession)
    (cellCode : string) (offsetInCode : Z) (cancelToken : option CancellationToken)
    (t : nat) :
  (getJupyterCompletion session cellCode offsetInCode cancelToken).2
  = Some (t, Rejected)
  ↔ status session ≠ "busy"
    ∧ (∀ tok c, cancelToken = Some tok → cancelledAt tok = Some c → (t ≤ c)%nat)
    ∧ (requestComplete session cellCode offsetInCode = Some (t, Rejected)
       ∨ ∃ reply,
           requestComplete session cellCode offsetInCode
           = Some (t, Fulfilled reply)
           ∧ primitive_content reply = true).
Proof.
  unfold getJupyterCompletion.
  destruct (String.eqb_spec (status session) "busy") as [Hbusy | Hbusy]; simpl.
  { split; [done | by intros [? _]]. }
  split.
  - intros Hrej. split; [done |].
    destruct (race_cancellation_cases
                (requestComplete session cellCode offsetInCode) cancelToken)
      as [[c Hrace] | [Hrace | (t' & outcome & Hrpc & Hrace & Hcancel)]];
      rewrite Hrace in Hrej; simpl in Hrej; try done.
    destruct outcome as [reply |]; simpl in Hrej.
    + destruct (normalize reply) as [result |] eqn:Hnormalize; [done |].
      injection Hrej as ->. split; [done |]. right. exists reply. split; [done |].
      destruct (primitive_content reply) eqn:Hprimitive; [done |].
      destruct (content_has_matches reply) eqn:Hhas.
      * destruct reply as [[[[| b | n | s | items | props] |]] |]; try done.
        simpl in Hhas. destruct (props !! "matches") as [ms |] eqn:Hms; [| done].
        by rewrite (normalize_has_matches _ _ Hms) in Hnormalize.
      * by rewrite normalize_no_matches in Hnormalize.
    + injection Hrej as ->. split; [done |]. by left.
  - intros (_ & Hcancel & [Hrpc | (reply & Hrpc & Hprimitive)]).
    + by rewrite (race_answered _ _ _ _ Hrpc Hcancel).
    + rewrite (race_answered _ _ _ _ Hrpc Hcancel). simpl.
      by rewrite normalize_primitive.
Qed.

End WireFacts.

(** ** Examples of replies *)

Section WireExamples.
Import Js Async Wire.

(** C8 at a reply whose content is a string, where the sentence would have
    the empty result and no exception: the session is not busy, the request
    is made and answered, the content has no [matches], and [in] raises, so
    that [getJupyterCompletion] is rejected. *)
Lemma getJupyterCompletion_raises_on_string_content :
  status (answering 2 (Some oops_reply)) ≠ "busy"
  ∧ content_has_matches (Some oops_reply) = false
  ∧ normalize (Some oops_reply) = TypeError
  ∧ getJupyterCompletion (answering 2 (Some oops_reply)) "os.env" 6 None
    = ([Completion.RequestComplete "os.env" 6], Some (2%nat, Rejected)).
Proof. repeat split; done. Qed.

Lemma getJupyterCompletion_reply_shapes_witness :
  status (answering 2 (Some os_environ_reply)) ≠ "busy"
  ∧ primitive_content (Some os_environ_reply) = false
  ∧ getJupyterCompletion (answering 2 (Some os_environ_reply)) "os.env" 6
      (Some {| cancelledAt := Some 4%nat |})
    = ([Completion.RequestComplete "os.env" 6],
       Some (2%nat, Fulfilled {| matches := Some (VArray [VString "os.environ"]);
                                 cursor_start := Some (VNumber 0);
                                 cursor_end := Some (VNumber 6);
                                 metadata := Some (VObject ∅) |})).
Proof.
  assert (status (answering 2 (Some os_environ_reply)) ≠ "busy") as Hidle
    by discriminate.
  split; [exact Hidle |]. split; [reflexivity |].
  destruct (proj2 (getJupyterCompletion_reply_shapes
                     (answering 2 (Some os_environ_reply)) "os.env" 6
                     (Some {| cancelledAt := Some 4%nat |}))
              Hidle 2%nat (Some os_environ_reply) eq_refl)
    as (result & Hrun & _ & Hfields & _).
  - intros tok c [= <-] [= <-]. lia.
  - reflexivity.
  - rewrite Hrun.
    rewrite (Hfields _ (VArray [VString "os.environ"]) eq_refl)
      by (vm_compute; reflexivity).
    vm_compute. reflexivity.
Defined.

(** Replies that are not of the declared type, and do not make it raise:
    [matches] that is [null] is handed on as it is, and a content without
    [matches], an array and no content give the empty result. *)
Example getJupyterCompletion_other_replies :
  (getJupyterCompletion (answering 2 (Some null_matches_reply)) "x" 1 None).2
  = Some (2%nat, Fulfilled {| matches := Some VNull; cursor_start := None;
                              cursor_end := None; metadata := None |})
  ∧ (getJupyterCompletion (answering 2 (Some error_reply)) "x" 1 None).2
    = Some (2%nat, Fulfilled emptyResult)
  ∧ (getJupyterCompletion
       (answering 2 (Some {| content := Some (VArray [VString "a"]) |})) "x" 1 None).2
    = Some (2%nat, Fulfilled emptyResult)
  ∧ (getJupyterCompletion (answering 2 (Some {| content := None |})) "x" 1 None).2
    = Some (2%nat, Fulfilled emptyResult)
  ∧ (getJupyterCompletion (answering 2 None) "x" 1 None).2
    = Some (2%nat, Fulfilled emptyResult).
Proof. repeat split; vm_compute; reflexivity. Qed.

Lemma getJupyterCompletion_rejected_iff_witness :
  (getJupyterCompletion (answering 2 (Some {| content := Some (VNumber 1) |}))
     "os.env" 6 (Some {| cancelledAt := Some 4%nat |})).2
  = Some (2%nat, Rejected).
Proof.
  apply getJupyterCompletion_rejected_iff. split; [discriminate |]. split.
  - intros tok c [= <-] [= <-]. lia.
  - right. exists (Some {| content := Some (VNumber 1) |}). split; reflexivity.
Defined.

End WireExamples.
